(** * DGS-python: wavelet-based digital grain size analysis

    A shallow embedding of [dgs_wav_p.py] and the properties its
    specification states about it.

    Conventions of the embedding.
    - Python 2 integers are [Z]; [/] between two integers is floor division
      ([Z.div]) and [%] is [Z.modulo], as in the interpreter the program was
      written for.
    - NumPy floating-point arrays are lists of real numbers ([R]): arithmetic
      is the exact arithmetic that the floating-point operations approximate.
    - The pixels of an image are unsigned 8-bit integers where the program
      computes with them as such: integers from 0 to 255 whose sums and
      differences wrap around modulo 256.
    - Exceptions are values of an error type; a function that can raise
      returns a [result]. *)

From Stdlib Require Import ZArith List String Bool Lia.
From Stdlib Require Import QArith Qround.
From Stdlib Require Import Reals Lra R_sqrt Rpower.
From Stdlib Require Import Sorting.Sorted.
Import ListNotations.

Local Open Scope Z_scope.

(** ** Python built-ins used by the program *)

Module Py.

(** Exceptions the program raises or lets escape. *)
Inductive exn : Type :=
| ValueError (msg : string)
| IndexError
| ZeroDivisionError
| OverflowError
| IOError
| SystemExit (code : Z).

Definition result (A : Type) : Type := (exn + A)%type.

Definition ret {A} (a : A) : result A := inr a.
Definition raise {A} (e : exn) : result A := inl e.
Definition bind {A B} (c : result A) (k : A -> result B) : result B :=
  match c with
  | inl e => inl e
  | inr a => k a
  end.

(** [range(start, stop, step)] for a positive step: the loop
    [cur = start; while cur < stop: yield cur; cur += step]. *)
Fixpoint range_up (fuel : nat) (cur stop step : Z) : list Z :=
  match fuel with
  | O => []
  | S fuel' =>
      if cur <? stop then cur :: range_up fuel' (cur + step) stop step
      else []
  end.

(** [range(start, stop, step)] for a negative step. *)
Fixpoint range_down (fuel : nat) (cur stop step : Z) : list Z :=
  match fuel with
  | O => []
  | S fuel' =>
      if stop <? cur then cur :: range_down fuel' (cur + step) stop step
      else []
  end.

(** [range] raises [ValueError] on a zero step. The fuel is the distance
    between the bounds, which no run of the loop can exceed. *)
Definition range3 (start stop step : Z) : result (list Z) :=
  if step =? 0 then raise (ValueError "range() step argument must not be zero"%string)
  else if 0 <? step then ret (range_up (Z.to_nat (stop - start)) start stop step)
  else ret (range_down (Z.to_nat (start - stop)) start stop step).

(** [range(start, stop)]. *)
Definition range2 (start stop : Z) : list Z :=
  range_up (Z.to_nat (stop - start)) start stop 1.

(** [seq[i]] on a list: negative indices count from the end, anything
    outside [-len, len) raises [IndexError]. *)
Definition getitem {A} (l : list A) (i : Z) : result A :=
  let n := Z.of_nat (List.length l) in
  let j := if i <? 0 then i + n else i in
  if (0 <=? j) && (j <? n) then
    match nth_error l (Z.to_nat j) with
    | Some a => ret a
    | None => raise IndexError
    end
  else raise IndexError.

(** A list comprehension whose body can raise. *)
Fixpoint comprehension {A B} (f : A -> result B) (l : list A) : result (list B) :=
  match l with
  | [] => ret []
  | a :: l' => bind (f a) (fun b => bind (comprehension f l') (fun bs => ret (b :: bs)))
  end.

End Py.

Notation "x <- c ;; k" := (Py.bind c (fun x => k))
  (at level 61, c at next level, right associativity).

(** ** Column extraction and the parallel dispatcher *)

(** [column(matrix, i)]: [[row[i] for row in matrix]]. *)
Definition column {A} (matrix : list (list A)) (i : Z) : Py.result (list A) :=
  Py.comprehension (fun row => Py.getitem row i) matrix.

Section Dispatcher.

(** The per-column analysis [parallel_me] with its constant arguments
    applied; the dispatcher does not look inside it. *)
Variable parallel_me : list R -> list R.

(** The columns submitted by [processimage]:
    [for k in range(1, nx-1, density)]. *)
Definition sampled_columns (nx density : Z) : Py.result (list Z) :=
  Py.range3 1 (nx - 1) density.

(** [Parallel(...)(delayed(parallel_me)(column(useregion, k), ...) for k in
    range(1, nx-1, density))]: joblib returns the results in submission
    order. *)
Definition dispatch (useregion : list (list R)) (nx density : Z)
  : Py.result (list (list R)) :=
  ks <- sampled_columns nx density ;;
  Py.comprehension (fun k => A <- column useregion k ;; Py.ret (parallel_me A)) ks.

End Dispatcher.

(** ** Parameter validation of the 2D Savitzky-Golay filter *)

(** [n_terms = (order + 1) * (order + 2) / 2.0]: a true division, hence a
    rational. *)
Definition n_terms (order : Z) : Q :=
  (inject_Z ((order + 1) * (order + 2)) / inject_Z 2)%Q.

(** The two guards at the head of [sgolay2d], in the order of the source;
    [window_size ** 2 < n_terms] compares an integer with a float. *)
Definition sgolay2d_guards (window_size order : Z) : Py.result unit :=
  if window_size mod 2 =? 0 then
    Py.raise (Py.ValueError "window_size must be odd"%string)
  else
    match (inject_Z (window_size ^ 2) ?= n_terms order)%Q with
    | Lt => Py.raise (Py.ValueError "order is too high for the window size"%string)
    | _ => Py.ret tt
    end.

(** ** The batch driver *)

Section Batch.

(** A decoded image and the six values [processimage] returns. *)
Variables image stats : Type.

(** [Image.open(item).convert("L")], which raises [IOError] for a file that
    cannot be opened or decoded. *)
Variable Image_open : string -> Py.result image.

(** Everything [processimage] does after the image is open (from
    [cropcentral] to the [return]).  It can raise: the line
    [mult = 6*int(float(100*(1/np.std(region.flatten()))))], for one, is
    outside every [try], and on an image of constant intensity the standard
    deviation is 0 and [int] of the infinite quotient raises
    [OverflowError]. *)
Variable analyse : image -> Py.result stats.

(** [writeout(item, sz, pdf, mnsz, srt, sk, kurt, resolution)], which raises
    when a result file cannot be written. *)
Variable writeout : string -> stats -> Py.result unit.

(** [try: im = Image.open(item).convert("L")
     except IOError: print 'cannot open', item; sys.exit(2)]:
    only [IOError] is caught. *)
Definition processimage_open (item : string) : Py.result image :=
  match Image_open item with
  | inl Py.IOError => Py.raise (Py.SystemExit 2)
  | r => r
  end.

Definition processimage (item : string) : Py.result stats :=
  im <- processimage_open item ;;
  analyse im.

(** The body of the loops of the main program:
    [sz, pdf, mnsz, srt, sk, kurt = processimage(item, ...);
     writeout(item, sz, pdf, mnsz, srt, sk, kurt, resolution)]. *)
Definition process_item (item : string) : Py.result stats :=
  r <- processimage item ;;
  _ <- writeout item r ;;
  Py.ret r.

(** What the main program has done so far: the counter of analysed images
    and the files for which [writeout] has returned, oldest first. *)
Record run_state : Type := mk_run_state {
  count : Z;
  written : list (string * stats)
}.

(** How a run ends: the loops run to completion, or an exception leaves
    the program; either way the results already written stay written. *)
Inductive outcome : Type :=
| Completed (st : run_state)
| Terminated (e : Py.exn) (st : run_state).

(** [for item in files: ... = processimage(item, ...); writeout(item, ...);
    count = count+1].  Nothing in the main program catches an exception. *)
Fixpoint process_files (files : list string) (st : run_state) : outcome :=
  match files with
  | [] => Completed st
  | item :: rest =>
      match process_item item with
      | inl e => Terminated e st
      | inr r =>
          process_files rest
            (mk_run_state (count st + 1) (written st ++ [(item, r)]))
      end
  end.

(** The nine blocks [if filesN: for item in filesN: ...], one per file
    extension, in sequence. *)
Fixpoint process_groups (groups : list (list string)) (st : run_state) : outcome :=
  match groups with
  | [] => Completed st
  | files :: more =>
      match process_files files st with
      | Completed st' => process_groups more st'
      | Terminated e st' => Terminated e st'
      end
  end.

Definition main (groups : list (list string)) : outcome :=
  process_groups groups (mk_run_state 0 []).

End Batch.

Arguments count {stats} _.
Arguments written {stats} _.
Arguments Completed {stats} _.
Arguments Terminated {stats} _ _.

(** ** NumPy operations on real arrays *)

Module Np.

Local Open Scope R_scope.

(** [np.sum] of a one-dimensional array. *)
Definition sum (a : list R) : R := fold_right Rplus 0 a.

(** The built-in [sum]: a left-to-right accumulation from [0]. *)
Definition py_sum (a : list R) : R := fold_left Rplus a 0.

(** [a * b], [a / s] and [a * s] on arrays.  The program multiplies
    arrays of one length only. *)
Definition mul (a b : list R) : list R :=
  map (fun p => fst p * snd p) (combine a b).

Definition div_scalar (a : list R) (s : R) : list R :=
  map (fun x => x / s) a.

Definition mul_scalar (a : list R) (s : R) : list R :=
  map (fun x => x * s) a.

Definition mean (a : list R) : R := sum a / INR (List.length a).

(** [np.var] and [np.std]: the mean squared deviation from the mean and
    its square root (no degrees-of-freedom correction). *)
Definition var (a : list R) : R :=
  mean (map (fun x => (x - mean a) ^ 2) a).

Definition std (a : list R) : R := sqrt (var a).

(** [a.flatten()] of a two-dimensional array, row by row. *)
Definition flatten (m : list (list R)) : list R := List.concat m.

(** [np.zeros(n)]. *)
Definition zeros (n : nat) : list R := repeat 0 n.

(** Assignment [a[i] = v] inside the bounds of [a]. *)
Fixpoint setitem {A} (a : list A) (i : nat) (v : A) : list A :=
  match a, i with
  | [], _ => []
  | _ :: a', O => v :: a'
  | x :: a', S i' => x :: setitem a' i' v
  end.

(** [np.put(Y, ind, v)]: [Y[ind[n]] = v[n]], the values being repeated
    when there are fewer of them than indices. *)
Fixpoint put_from (Y : list R) (ind : list Z) (v : list R) (n : nat) : list R :=
  match ind with
  | [] => Y
  | i :: ind' =>
      put_from (setitem Y (Z.to_nat i) (nth (Nat.modulo n (List.length v)) v 0))
               ind' v (S n)
  end.

Definition put (Y : list R) (ind : list Z) (v : list R) : list R :=
  put_from Y ind v O.

(** [int(x)] and [np.fix(x)]: rounding toward zero. *)
Definition trunc (x : R) : Z :=
  if Rle_dec 0 x then Int_part x else (- Int_part (- x))%Z.

(** [a < t] as an array of booleans, and [np.nonzero] of such an array. *)
Definition less (a : list R) (t : R) : list bool :=
  map (fun x => if Rlt_dec x t then true else false) a.

Fixpoint nonzero_from (n : nat) (mask : list bool) : list nat :=
  match mask with
  | [] => []
  | b :: mask' =>
      if b then n :: nonzero_from (S n) mask' else nonzero_from (S n) mask'
  end.

Definition nonzero (mask : list bool) : list nat := nonzero_from O mask.

(** [a[index]] for an index array produced by [np.nonzero]. *)
Definition take (a : list R) (index : list nat) : list R :=
  map (fun i => nth i a 0) index.

(** [np.reshape(d, (-1, n))]: the flattened data cut into rows of [n]. *)
Fixpoint rows_of (fuel n : nat) (flat : list R) : list (list R) :=
  match fuel, flat with
  | O, _ => []
  | _, [] => []
  | S fuel', _ => firstn n flat :: rows_of fuel' n (skipn n flat)
  end.

Definition reshape (d : list (list R)) (n : nat) : list (list R) :=
  let flat := flatten d in rows_of (List.length flat) n flat.

(** [m.T] for a matrix with [n] columns. *)
Definition transpose (n : nat) (m : list (list R)) : list (list R) :=
  map (fun j => map (fun row => nth j row 0) m) (seq 0 n).

End Np.

(** ** Zero padding *)

Local Open Scope R_scope.

(** [pad2nxtpow2(A, ny)]. *)
Definition pad2nxtpow2 (A : list R) (ny : Z) : list R :=
  let base2 := Np.trunc (ln (IZR ny) / ln 2 + 0.4999) in
  let Y := Np.zeros (Z.to_nat (ny + (2 ^ (base2 + 1) - ny))) in
  Np.put Y (Py.range2 0 ny) A.

(** The padded length the smoothing stage of [processimage] uses:
    [l2nx = np.ceil(np.log(float(ny)) / np.log(2.0) + 0.0001)];
    [npad = int(2 ** l2nx)]. *)
Definition npad (ny : Z) : Z :=
  (2 ^ (- Int_part (- (ln (IZR ny) / ln 2 + 0.0001))))%Z.

(** ** The continuous wavelet transform *)

(** Complex numbers as pairs (real part, imaginary part). *)
Definition C : Type := (R * R)%type.

Module Cx.

Definition of_real (x : R) : C := (x, 0).
Definition zero : C := (0, 0).
Definition add (a b : C) : C := (fst a + fst b, snd a + snd b).
Definition mul (a b : C) : C :=
  (fst a * fst b - snd a * snd b, fst a * snd b + snd a * fst b).
Definition scale (r : R) (a : C) : C := (r * fst a, r * snd a).

(** [exp(i t)]. *)
Definition cis (t : R) : C := (cos t, sin t).

Definition sum (l : list C) : C := fold_right add zero l.

(** [np.fft.fft] and [np.fft.ifft] compute the discrete Fourier transform
    and its inverse; they are modelled by the sums that define them. *)
Definition fft (x : list C) : list C :=
  let N := List.length x in
  map (fun k =>
         sum (map (fun n => mul (nth n x zero)
                                (cis (- (2 * PI * INR k * INR n / INR N))))
                  (seq 0 N)))
      (seq 0 N).

Definition ifft (X : list C) : list C :=
  let N := List.length X in
  map (fun n =>
         scale (/ INR N)
               (sum (map (fun k => mul (nth k X zero)
                                       (cis (2 * PI * INR k * INR n / INR N)))
                         (seq 0 N))))
      (seq 0 N).

(** A real array times a complex array, element by element. *)
Definition rmul (a : list R) (b : list C) : list C :=
  map (fun p => scale (fst p) (snd p)) (combine a b).

End Cx.

Module Cwt.

(** [Cwt._log2]: [int(np.log(float(x)) / np.log(2.0) + 0.0001)].  The
    logarithm of 0 is minus infinity, and [int] of an infinite float raises
    [OverflowError]; the logarithm of a negative number is not a number,
    and [int] of it raises [ValueError]. *)
Definition _log2 (x : Z) : Py.result Z :=
  if (x =? 0)%Z then Py.raise Py.OverflowError
  else if (x <? 0)%Z then
    Py.raise (Py.ValueError "cannot convert float NaN to integer"%string)
  else Py.ret (Np.trunc (ln (IZR x) / ln 2 + 0.0001)).

(** The loop [for j in range(n): a[j] = f(j)] on an array [a]. *)
Definition fill {A} (a : list A) (n : Z) (f : Z -> A) : list A :=
  fold_left (fun a j => Np.setitem a (Z.to_nat j) (f j)) (Py.range2 0 n) a.

(** [Cwt._setscales]: the number of scales and the scales.  [self.scale]
    holds [largestscale] when the method runs. *)
Definition _setscales (ndata largestscale notes : Z) (scaling : string)
  : Py.result (Z * list R) :=
  if String.eqb scaling "log" then
    let notes := if (notes <=? 0)%Z then 1%Z else notes in
    if (largestscale =? 0)%Z then Py.raise Py.ZeroDivisionError
    else
      noctave <- _log2 (ndata / largestscale / 2) ;;
      let nscale := (notes * noctave)%Z in
      let scales := Np.zeros (Z.to_nat nscale) in
      Py.ret (nscale,
              fill scales nscale
                (fun j => IZR ndata /
                          (IZR largestscale *
                           Rpower 2 (IZR (nscale - 1 - j) / IZR notes))))
  else if String.eqb scaling "linear" then
    if (largestscale =? 0)%Z then Py.raise Py.ZeroDivisionError
    else
      let nmax := (ndata / largestscale / 2)%Z in
      let scales := map IZR (Py.range2 2 nmax) in
      Py.ret (Z.of_nat (List.length scales), scales)
  else Py.raise (Py.ValueError "scaling must be linear or log"%string).

(** The state of a [Cwt] instance after [__init__]. *)
Record t : Type := mk {
  nscale : Z;
  scales : list R;
  fftdata : list C;
  cwt : list (list C)
}.

(** [np.array(range(0, ndata/2) + range(-ndata/2, 0)) * (2.0*np.pi/ndata)]:
    the quotient [2.0*np.pi/ndata] of a float by the integer [ndata] raises
    [ZeroDivisionError] when there is no sample. *)
Definition omega (ndata : Z) : Py.result (list R) :=
  let bins := Py.range2 0 (ndata / 2) ++ Py.range2 (Z.opp ndata / 2) 0 in
  if (ndata =? 0)%Z then Py.raise Py.ZeroDivisionError
  else Py.ret (map (fun k => IZR k * (2 * PI / IZR ndata)) bins).

Section Transform.

(** The Fourier transform of the wavelet, which a subclass provides. *)
Variable wf : list R -> list R.

(** The body of the loop over scales: the coefficients at one scale. *)
Definition coefficients (omega : list R) (datahat : list C)
           (currentscale : R) : list C :=
  let s_omega := Np.mul_scalar omega currentscale in
  let psihat := wf s_omega in
  let psihat := Np.mul_scalar psihat (sqrt (2 * PI * currentscale)) in
  let convhat := Cx.rmul psihat datahat in
  Cx.ifft convhat.

(** [Cwt.__init__]. *)
Definition init (data : list R) (largestscale notes : Z) (scaling : string)
  : Py.result t :=
  let ndata := Z.of_nat (List.length data) in
  ns <- _setscales ndata largestscale notes scaling ;;
  let nscale := fst ns in
  let scales := snd ns in
  let cwt := repeat (repeat Cx.zero (Z.to_nat ndata)) (Z.to_nat nscale) in
  omega <- omega ndata ;;
  let datahat := Cx.fft (map Cx.of_real data) in
  Py.ret (mk nscale scales datahat
             (fill cwt nscale
                (fun scaleindex =>
                   coefficients omega datahat
                     (nth (Z.to_nat scaleindex) scales 0)))).

End Transform.

End Cwt.

Module Morlet.

Definition _omega0 : R := 6.0.

(** [Morlet.wf]: the mask [H] is built by the loop
    [for i in range(len(s_omega)): if s_omega[i] < 0.0: H[i] = 0.0]. *)
Definition wf (s_omega : list R) : list R :=
  let H := repeat 1 (List.length s_omega) in
  let H := fold_left
             (fun H i => if Rlt_dec (nth (Z.to_nat i) s_omega 0) 0.0
                         then Np.setitem H (Z.to_nat i) 0.0 else H)
             (Py.range2 0 (Z.of_nat (List.length s_omega))) H in
  Np.mul (map (fun x => 0.75112554 * exp (- (x - _omega0) ^ 2 / 2.0)) s_omega) H.

(** [Morlet(data, largestscale, notes, scaling=scaling)]. *)
Definition init := Cwt.init wf.

End Morlet.

(** ** Aggregation of the per-column spectra and statistics *)

Section Aggregator.

(** [scipy.signal.kaiser(M, beta)], the Kaiser window of length [M]. *)
Variable kaiser : nat -> Z -> list R.

(** [mult = 6*int(float(100*(1/np.std(region.flatten()))))], for an image
    that is not constant (the standard deviation of a constant image is 0
    and the conversion of the infinite quotient to an integer fails). *)
Definition mult (region : list (list R)) : Z :=
  (6 * Np.trunc (100 * (1 / Np.std (Np.flatten region))))%Z.

(** [Or1 = np.reshape(d, (-1, len(scales))).T; np.var(Or1, axis=1)]. *)
Definition column_variance (d : list (list R)) (nscales : nat) : list R :=
  let Or1 := Np.transpose nscales (Np.reshape d nscales) in
  map Np.var Or1.

(** [varcwt1 = varcwt1/np.sum(varcwt1)]. *)
Definition varcwt1 (d : list (list R)) (nscales : nat) : list R :=
  let v := column_variance d nscales in
  Np.div_scalar v (Np.sum v).

(** [varcwt1*sp.kaiser(len(varcwt1), mult)]. *)
Definition windowed (varcwt1 : list R) (mult : Z) : list R :=
  Np.mul varcwt1 (kaiser (List.length varcwt1) mult).

(** [svarcwt = svarcwt/np.sum(svarcwt)]. *)
Definition svarcwt (varcwt1 : list R) (mult : Z) : list R :=
  let w := windowed varcwt1 mult in
  Np.div_scalar w (Np.sum w).

(** [index = np.nonzero(scales<ny/3)] and the lines up to
    [scales = scales*resolution]; [ny] is an integer, so is [ny/3]. *)
Definition retain (scales svarcwt : list R) (ny : Z) (resolution : R)
  : list R * list R :=
  let index := Np.nonzero (Np.less scales (IZR (ny / 3))) in
  let scales := Np.take scales index in
  let svarcwt := Np.take svarcwt index in
  let scales := Np.mul_scalar scales 1.5 in
  let scales := Np.mul_scalar scales resolution in
  (scales, svarcwt).

(** [mnsz], [srt], [sk] and [kurt]. *)
Definition mnsz (scales svarcwt : list R) : R :=
  Np.sum (Np.mul svarcwt scales).

Definition srt (scales svarcwt : list R) : R :=
  let mnsz := mnsz scales svarcwt in
  sqrt (Np.sum (Np.mul svarcwt (map (fun s => (s - mnsz) ^ 2) scales))).

Definition sk (scales svarcwt : list R) : R :=
  let mnsz := mnsz scales svarcwt in
  let srt := srt scales svarcwt in
  Np.py_sum (Np.mul svarcwt (map (fun s => (s - mnsz) ^ 3) scales))
  / (100 * srt ^ 3).

Definition kurt (scales svarcwt : list R) : R :=
  let mnsz := mnsz scales svarcwt in
  let srt := srt scales svarcwt in
  Np.py_sum (Np.mul svarcwt (map (fun s => (s - mnsz) ^ 4) scales))
  / (100 * srt ^ 4).

(** What [processimage] returns:
    [scales, svarcwt, mnsz, srt, sk, kurt]. *)
Record psd : Type := mk_psd {
  psd_scales : list R;
  psd_svarcwt : list R;
  psd_mnsz : R;
  psd_srt : R;
  psd_sk : R;
  psd_kurt : R
}.

(** Lines 431-457 of [processimage]: from the dispatcher's results [d],
    the scales of the transform and the image to the returned values. *)
Definition aggregate (region d : list (list R)) (scales : list R)
           (ny : Z) (resolution : R) : psd :=
  let v1 := varcwt1 d (List.length scales) in
  let sv := svarcwt v1 (mult region) in
  let kept := retain scales sv ny resolution in
  mk_psd (fst kept) (snd kept)
         (mnsz (fst kept) (snd kept)) (srt (fst kept) (snd kept))
         (sk (fst kept) (snd kept)) (kurt (fst kept) (snd kept)).

End Aggregator.

(** ** The statistics in the words of the specification *)

(** [sum over i of density_i * (size_i - c)^k]. *)
Definition weighted_moment (k : nat) (sizes density : list R) (c : R) : R :=
  Np.sum (map (fun i => nth i density 0 * (nth i sizes 0 - c) ^ k)
              (seq 0 (List.length density))).

Definition spec_mean (sizes density : list R) : R :=
  Np.sum (map (fun i => nth i density 0 * nth i sizes 0)
              (seq 0 (List.length density))).

Definition spec_stdev (sizes density : list R) : R :=
  sqrt (weighted_moment 2 sizes density (spec_mean sizes density)).

Definition spec_skewness (sizes density : list R) : R :=
  weighted_moment 3 sizes density (spec_mean sizes density)
  / (100 * spec_stdev sizes density ^ 3).

Definition spec_kurtosis (sizes density : list R) : R :=
  weighted_moment 4 sizes density (spec_mean sizes density)
  / (100 * spec_stdev sizes density ^ 4).

(** The Morlet frequency response in the words of the specification. *)
Definition spec_psi (x : R) : R :=
  if Rlt_dec x 0 then 0 else 0.75112554 * exp (- (x - 6.0) ^ 2 / 2).

(** An integer nearest to a real number, whatever the rule for ties. *)
Definition nearest_integer (x : R) (r : Z) : Prop := Rabs (x - IZR r) <= / 2.

(** ** The rest of the program *)

(** [iseven] and [isodd]. *)
Definition iseven (n : Z) : bool := (n mod 2 =? 0)%Z.

Definition isodd (n : Z) : bool := negb (iseven n).

(** The module-level [log2], the same expression as [Cwt._log2]. *)
Definition log2 (x : Z) : Py.result Z :=
  if (x =? 0)%Z then Py.raise Py.OverflowError
  else if (x <? 0)%Z then
    Py.raise (Py.ValueError "cannot convert float NaN to integer"%string)
  else Py.ret (Np.trunc (ln (IZR x) / ln 2 + 0.0001)).

(** The built-in [min] and [max] of a sequence, which raise [ValueError] on
    an empty one. *)
Definition py_min (l : list R) : Py.result R :=
  match l with
  | [] => Py.raise (Py.ValueError "min() arg is an empty sequence"%string)
  | x :: l' => Py.ret (fold_left Rmin l' x)
  end.

Definition py_max (l : list R) : Py.result R :=
  match l with
  | [] => Py.raise (Py.ValueError "max() arg is an empty sequence"%string)
  | x :: l' => Py.ret (fold_left Rmax l' x)
  end.

(** [rescale(dat, mn, mx)]:
    [m = min(dat.flatten()); M = max(dat.flatten());
     return (mx-mn)*(dat-m)/(M-m)+mn]. *)
Definition rescale (dat : list (list R)) (mn mx : R) : Py.result (list (list R)) :=
  m <- py_min (Np.flatten dat) ;;
  M <- py_max (Np.flatten dat) ;;
  Py.ret (map (map (fun x => (mx - mn) * (x - m) / (M - m) + mn)) dat).

(** The box [cropcentral] hands to [im.crop], for an image of size
    [(width, height)]: (left, upper, right, lower). *)
Definition cropBox (size : Z * Z) : Z * Z * Z * Z :=
  let s := Z.min (fst size) (snd size) in
  let originX := (fst size / 2 - s / 2)%Z in
  let originY := (snd size / 2 - s / 2)%Z in
  (originX, originY, (originX + s)%Z, (originY + s)%Z).

(** [np.shape] of a two-dimensional array. *)
Definition shape (m : list (list R)) : Z * Z :=
  (Z.of_nat (List.length m), Z.of_nat (List.length (hd [] m))).

(** [a - b] on two-dimensional arrays of one shape. *)
Definition matrix_sub (a b : list (list R)) : list (list R) :=
  map (fun p => map (fun q => fst q - snd q) (combine (fst p) (snd p)))
      (combine a b).

(** The window of the filter in [processimage]:
    [if isodd(mn/4): window_size = (mn/4) else: window_size = (mn/4)-1]. *)
Definition window_size (mn : Z) : Z :=
  if isodd (mn / 4) then (mn / 4)%Z else (mn / 4 - 1)%Z.

(** The exponents of the monomials in [sgolay2d]:
    [[(k-n, n) for k in range(order+1) for n in range(k+1)]]. *)
Definition exps (order : Z) : list (Z * Z) :=
  flat_map (fun k => map (fun n => ((k - n)%Z, n)) (Py.range2 0 (k + 1)))
           (Py.range2 0 (order + 1)).

(** The coordinates of the window's points in [sgolay2d]:
    [ind = np.arange(-half_size, half_size+1)], [dx = np.repeat(ind,
    window_size)] and [dy = np.tile(ind, [window_size, 1]).reshape(
    window_size**2, )]; the reshape raises [ValueError] when the tiled array
    does not have [window_size**2] entries. *)
Definition window_points (window_size : Z) : Py.result (list R * list R) :=
  let half_size := (window_size / 2)%Z in
  let ind := map IZR (Py.range2 (- half_size) (half_size + 1)) in
  let dx := flat_map (fun x => repeat x (Z.to_nat window_size)) ind in
  let tiled := List.concat (repeat ind (Z.to_nat window_size)) in
  if (Z.of_nat (List.length tiled) =? window_size ^ 2)%Z
  then Py.ret (dx, tiled)
  else Py.raise (Py.ValueError "total size of new array must be unchanged"%string).

(** The bound [i] of a slice [a[i:j]] on an axis of [n] entries: a negative
    bound counts from the end, and the result is clipped to the axis. *)
Definition slice_bound (n i : Z) : Z :=
  let i := if (i <? 0)%Z then (i + n)%Z else i in
  Z.max 0 (Z.min n i).

(** The number of entries that [a[start:stop]] selects on that axis. *)
Definition slice_len (n start stop : Z) : Z :=
  Z.max 0 (slice_bound n stop - slice_bound n start).

(** Whether the assignment [target[...] = value] can be carried out, for
    two-dimensional shapes: along each axis the value has the extent of the
    target or the extent 1. *)
Definition broadcastable (value target : Z * Z) : bool :=
  ((fst value =? fst target) || (fst value =? 1))%Z &&
  ((snd value =? snd target) || (snd value =? 1))%Z.

(** The shapes met by the assignment of the top band in [sgolay2d],
    [Z[:half_size, half_size:-half_size] =
       band - np.abs(np.flipud(z[1:half_size+1, :]) - band)],
    where [Z] has the shape
    [(z.shape[0] + 2*half_size, z.shape[1] + 2*half_size)]: the shape of the
    right-hand side, which is that of [z[1:half_size+1, :]], and the shape
    of the target.  With [half_size = 0] the stop [-half_size] of the column
    slice is 0, the start of the axis and not its end. *)
Definition top_band_shapes (z_shape : Z * Z) (half_size : Z)
  : (Z * Z) * (Z * Z) :=
  let rows := fst z_shape in
  let cols := snd z_shape in
  ((slice_len rows 1 (half_size + 1), cols),
   (slice_len (rows + 2 * half_size) 0 half_size,
    slice_len (cols + 2 * half_size) half_size (- half_size))).

(** The top band as far as it can raise: [band = z[0, :]] needs a first
    row, and the assignment needs shapes that fit. *)
Definition assign_top_band (z : list (list R)) (half_size : Z) : Py.result unit :=
  if (fst (shape z) =? 0)%Z then Py.raise Py.IndexError
  else
    let shapes := top_band_shapes (shape z) half_size in
    if broadcastable (fst shapes) (snd shapes) then Py.ret tt
    else Py.raise (Py.ValueError "could not broadcast input array"%string).

Section SavitzkyGolay.

(** The rest of the body of [sgolay2d], from the bottom band on: the other
    borders and the corners, the pseudo-inverse of the design matrix and
    the convolution.  It is a parameter of the model, and its result can be
    an exception. *)
Variable filter_rest : list (list R) -> Z -> Z -> Py.result (list (list R)).

(** The body of [sgolay2d] behind the guards.  The coordinates of the
    window and the top band are the first statements that can raise; the
    design matrix built between them cannot.  For a negative window the
    [ValueError] may come from [np.repeat] before the reshape: the model
    keeps the type of the exception, not its message. *)
Definition sgolay2d_body (z : list (list R)) (window_size order : Z)
  : Py.result (list (list R)) :=
  let half_size := (window_size / 2)%Z in
  _ <- window_points window_size ;;
  _ <- assign_top_band z half_size ;;
  filter_rest z window_size order.

(** [sgolay2d(z, window_size, order)]. *)
Definition sgolay2d (z : list (list R)) (window_size order : Z)
  : Py.result (list (list R)) :=
  _ <- sgolay2d_guards window_size order ;;
  sgolay2d_body z window_size order.

End SavitzkyGolay.

Section Flattening.

Variable filter_rest : list (list R) -> Z -> Z -> Py.result (list (list R)).

(** The [try] block of [processimage] that removes the trend surface and
    its bare [except], which keeps the image as it is. *)
Definition useregion (region : list (list R)) : list (list R) :=
  let nx := fst (shape region) in
  let ny := snd (shape region) in
  let mn := Z.min nx ny in
  match (Zf <- sgolay2d filter_rest region (window_size mn) 3 ;;
         rescale (matrix_sub region Zf) 0 255) with
  | inr useregion => useregion
  | inl _ => region
  end.

End Flattening.

(** [Cwt.getpower]: [(self.cwt * np.conjugate(self.cwt)).real]. *)
Definition conjugate (c : C) : C := (fst c, - snd c).

Definition getpower (cw : Cwt.t) : list (list R) :=
  map (map (fun c => fst (Cx.mul c (conjugate c)))) (Cwt.cwt cw).

(** [np.absolute] of a complex number. *)
Definition absolute (c : C) : R := sqrt (fst c * fst c + snd c * snd c).

(** [np.fft.fft(x, n)]: the input is cut or padded with zeros to [n]
    entries. *)
Definition fft_n (x : list C) (n : nat) : list C :=
  Cx.fft (firstn n (x ++ repeat Cx.zero (n - List.length x))).

(** The squared wavenumbers [k2] of the smoothing, from [processimage]:
    [k = np.r_[0.:np.fix(npad)/2]] has one entry per integer below
    [npad/2.]; [kr = -k[::-1]] is cut to [(npad-1)/2] entries. *)
Definition k2 (npad : Z) : list R :=
  let k := map IZR (Py.range2 0 ((npad + 1) / 2)) in
  let k := Np.mul_scalar k (2 * PI / IZR npad) in
  let kr := map Ropp (rev k) in
  let kr := firstn (Z.to_nat ((npad - 1) / 2)) kr in
  map (fun x => x ^ 2) (0 :: k ++ kr).

Section ColumnAnalyzer.

(** [scipy.signal.detrend], which removes the least-squares line. *)
Variable detrend : list R -> list R.

(** [parallel_me] up to [dat = np.var(twave,axis=1)], for the wavelet
    [Morlet] that [processimage] passes. *)
Definition column_spectrum (A : list R) (ny maxscale notes : Z)
           (scaling : string) (k2 : list R) (npad : Z) : Py.result (list R) :=
  let A := detrend A in
  let Y := pad2nxtpow2 A ny in
  cw <- Morlet.init Y maxscale notes scaling ;;
  let cwt := map (firstn (Z.to_nat ny)) (Cwt.cwt cw) in
  let scales := Cwt.scales cw in
  let wave :=
    map (fun p => map (fun c => 1 / fst p * absolute c ^ 2) (snd p))
        (combine scales cwt) in
  let twave := map (fun row => Np.zeros (List.length row)) wave in
  let snorm := Np.div_scalar scales 1 in
  let twave :=
    Cwt.fill twave (Z.of_nat (List.length wave))
      (fun ii =>
         let F := map (fun q => exp (- 0.5 * nth (Z.to_nat ii) snorm 0 ^ 2 * q)) k2 in
         let smooth :=
           Cx.ifft (Cx.rmul F (fft_n (map Cx.of_real (nth (Z.to_nat ii) wave []))
                                     (Z.to_nat npad))) in
         map fst (firstn (Z.to_nat ny) smooth)) in
  Py.ret (map Np.var twave).

(** [parallel_me]: [dat = dat/sum(dat)]. *)
Definition parallel_me (A : list R) (ny maxscale notes : Z)
           (scaling : string) (k2 : list R) (npad : Z) : Py.result (list R) :=
  dat <- column_spectrum A ny maxscale notes scaling k2 npad ;;
  Py.ret (Np.div_scalar dat (Np.py_sum dat)).

End ColumnAnalyzer.

(** The sampling stride the main program passes on: the option [-d]
    converted to an integer when it is given ([if density: density =
    np.asarray(density,int)]), and [if not density: density = 10]. *)
Definition effective_density (arg : option Z) : Z :=
  match arg with
  | Some d => if (d =? 0)%Z then 10%Z else d
  | None => 10%Z
  end.

(** The slice [l[start:stop]] for bounds that are not negative. *)
Definition slice {A} (l : list A) (start stop : nat) : list A :=
  skipn start (firstn stop l).

(** Arithmetic on arrays of unsigned 8-bit integers, the type of the array
    [np.array(region)] that [processimage] makes of the PIL image of mode
    "L" and passes to [sgolay2d]: a pixel is an integer from 0 to 255, sums
    and differences wrap around modulo 256, and [np.abs] changes nothing. *)
Module U8.

Definition wrap (v : Z) : Z := (v mod 256)%Z.
Definition add (a b : Z) : Z := wrap (a + b).
Definition sub (a b : Z) : Z := wrap (a - b).
Definition abs (a : Z) : Z := a.

End U8.

(** The values [sgolay2d] computes for the four borders of the padded array
    when [processimage] calls it, for a window with
    [half_size = window_size // 2]: the rows or columns next to a border are
    mirrored and combined with the border value [band], in the arithmetic of
    the image's 8-bit pixels.
    Top: [band = z[0, :]; band - np.abs(np.flipud(z[1:half_size+1, :]) - band)]. *)
Definition top_band (z : list (list Z)) (half_size : nat) : list (list Z) :=
  let band := hd [] z in
  map (fun row =>
         map (fun p => U8.sub (fst p) (U8.abs (U8.sub (snd p) (fst p))))
             (combine band row))
      (rev (slice z 1 (half_size + 1))).

(** Bottom: [band = z[-1, :];
    band + np.abs(np.flipud(z[-half_size-1:-1, :]) - band)]. *)
Definition bottom_band (z : list (list Z)) (half_size : nat) : list (list Z) :=
  let band := last z [] in
  map (fun row =>
         map (fun p => U8.add (fst p) (U8.abs (U8.sub (snd p) (fst p))))
             (combine band row))
      (rev (slice z (List.length z - (half_size + 1)) (List.length z - 1))).

(** Left: [band = np.tile(z[:,0].reshape(-1,1), [1,half_size]);
    band - np.abs(np.fliplr(z[:, 1:half_size+1]) - band)]. *)
Definition left_band (z : list (list Z)) (half_size : nat) : list (list Z) :=
  map (fun row =>
         map (fun x => U8.sub (hd 0%Z row) (U8.abs (U8.sub x (hd 0%Z row))))
             (rev (slice row 1 (half_size + 1))))
      z.

(** Right: [band = np.tile(z[:,-1].reshape(-1,1), [1,half_size]);
    band + np.abs(np.fliplr(z[:, -half_size-1:-1]) - band)]. *)
Definition right_band (z : list (list Z)) (half_size : nat) : list (list Z) :=
  map (fun row =>
         map (fun x => U8.add (last row 0%Z) (U8.abs (U8.sub x (last row 0%Z))))
             (rev (slice row (List.length row - (half_size + 1))
                         (List.length row - 1))))
      z.

(** * Properties *)

(** ** The sampled columns *)

Local Open Scope Z_scope.

Lemma range_up_In (fuel : nat) :
  forall cur stop step k,
    0 < step -> stop - cur <= Z.of_nat fuel ->
    (In k (Py.range_up fuel cur stop step) <->
     cur <= k < stop /\ exists i, 0 <= i /\ k = cur + i * step).
Proof.
  induction fuel as [|fuel IH]; intros cur stop step k Hstep Hfuel.
  - simpl. split; [tauto|]. intros [Hk _]. lia.
  - cbn [Py.range_up]. destruct (Z.ltb_spec cur stop) as [Hlt|Hge].
    + cbn [In]. rewrite IH by lia. split.
      * intros [<-|[Hk [i [Hi ->]]]].
        -- split; [lia|]. exists 0. lia.
        -- split; [nia|]. exists (i + 1). split; [lia|ring].
      * intros [Hk [i [Hi ->]]].
        destruct (Z.eq_dec i 0) as [->|Hne]; [left; ring|].
        right. split; [nia|]. exists (i - 1). split; [lia|ring].
    + simpl. split; [tauto|]. intros [Hk _]. lia.
Qed.

Lemma range_up_lower (fuel : nat) :
  forall cur stop step k,
    0 < step -> In k (Py.range_up fuel cur stop step) -> cur <= k.
Proof.
  induction fuel as [|fuel IH]; intros cur stop step k Hstep; simpl; [tauto|].
  destruct (cur <? stop); simpl; [|tauto].
  intros [<-|Hin]; [lia|]. apply IH in Hin; lia.
Qed.

Lemma range_up_sorted (fuel : nat) :
  forall cur stop step,
    0 < step -> StronglySorted Z.lt (Py.range_up fuel cur stop step).
Proof.
  induction fuel as [|fuel IH]; intros cur stop step Hstep; simpl.
  - constructor.
  - destruct (cur <? stop); [|constructor].
    constructor; [now apply IH|].
    apply Forall_forall. intros k Hin.
    apply range_up_lower in Hin; lia.
Qed.

Lemma getitem_nth {A} (row : list A) (k : Z) (d : A) :
  0 <= k < Z.of_nat (List.length row) ->
  Py.getitem row k = inr (nth (Z.to_nat k) row d).
Proof.
  intros Hk. unfold Py.getitem.
  destruct (Z.ltb_spec k 0) as [?|_]; [lia|].
  destruct (Z.leb_spec 0 k) as [_|?]; [|lia].
  destruct (Z.ltb_spec k (Z.of_nat (List.length row))) as [_|?]; [|lia].
  cbn [andb].
  destruct (nth_error row (Z.to_nat k)) as [a|] eqn:E.
  - now rewrite (nth_error_nth _ _ d E).
  - apply nth_error_None in E. lia.
Qed.

Lemma column_nth {A} (matrix : list (list A)) (k : Z) (d : A) :
  Forall (fun row => 0 <= k < Z.of_nat (List.length row)) matrix ->
  column matrix k = inr (map (fun row => nth (Z.to_nat k) row d) matrix).
Proof.
  unfold column. induction 1 as [|row matrix Hrow _ IH]; [reflexivity|].
  cbn [Py.comprehension map]. rewrite (getitem_nth row k d Hrow).
  cbn [Py.bind]. now rewrite IH.
Qed.

Lemma comprehension_total {A B} (f : A -> Py.result B) (g : A -> B) (l : list A) :
  Forall (fun a => f a = inr (g a)) l ->
  Py.comprehension f l = inr (map g l).
Proof.
  induction 1 as [|a l Ha _ IH]; [reflexivity|].
  cbn [Py.comprehension map]. rewrite Ha. cbn [Py.bind]. now rewrite IH.
Qed.

(** C10. For a square image of [nx] rows and columns and a stride
    [density >= 1], the dispatcher submits a list of column indices that
    contains exactly the indices [1 + i * density] (for [i = 0, 1, ...])
    lying strictly below [nx - 1], in strictly ascending order; neither
    column [0] nor column [nx - 1] is among them, and the result of the
    dispatcher is the per-column analysis of those columns in that order. *)
Theorem C10_sampled_columns :
  forall (parallel_me : list R -> list R) (useregion : list (list R))
         (nx density : Z),
    1 <= density ->
    Z.of_nat (List.length useregion) = nx ->
    Forall (fun row => Z.of_nat (List.length row) = nx) useregion ->
    exists ks,
      sampled_columns nx density = inr ks /\
      (forall k, In k ks <->
                 1 <= k < nx - 1 /\ exists i, 0 <= i /\ k = 1 + i * density) /\
      StronglySorted Z.lt ks /\
      ~ In 0 ks /\ ~ In (nx - 1) ks /\
      dispatch parallel_me useregion nx density =
      inr (map (fun k => parallel_me
                           (map (fun row => nth (Z.to_nat k) row 0%R) useregion))
               ks).
Proof.
  intros parallel_me useregion nx density Hd Hrows Hcols.
  exists (Py.range_up (Z.to_nat (nx - 1 - 1)) 1 (nx - 1) density).
  assert (Hin : forall k,
             In k (Py.range_up (Z.to_nat (nx - 1 - 1)) 1 (nx - 1) density) <->
             1 <= k < nx - 1 /\ exists i, 0 <= i /\ k = 1 + i * density).
  { intros k. apply range_up_In; lia. }
  assert (Hrange : sampled_columns nx density =
                   inr (Py.range_up (Z.to_nat (nx - 1 - 1)) 1 (nx - 1) density)).
  { unfold sampled_columns, Py.range3.
    destruct (Z.eqb_spec density 0) as [?|_]; [lia|].
    destruct (Z.ltb_spec 0 density) as [_|?]; [reflexivity|lia]. }
  split; [exact Hrange|]. split; [exact Hin|].
  split; [|split; [|split]].
  - apply range_up_sorted; lia.
  - intros H0. apply Hin in H0. lia.
  - intros H1. apply Hin in H1. lia.
  - unfold dispatch. rewrite Hrange. cbn [Py.bind].
    apply comprehension_total. apply Forall_forall. intros k Hk.
    apply Hin in Hk. destruct Hk as [Hk _].
    rewrite (column_nth useregion k 0%R).
    + reflexivity.
    + eapply Forall_impl; [|exact Hcols]. cbn beta. intros row Hrow. lia.
Qed.

(** A 5 x 5 image sampled with stride 2: columns 1 and 3. *)
Lemma C10_sampled_columns_witness :
  exists ks,
    sampled_columns 5 2 = inr ks /\
    (forall k, In k ks <-> 1 <= k < 5 - 1 /\ exists i, 0 <= i /\ k = 1 + i * 2) /\
    StronglySorted Z.lt ks /\
    ~ In 0 ks /\ ~ In (5 - 1) ks /\
    dispatch (fun A => A) (repeat (repeat 1%R 5) 5) 5 2 =
    inr (map (fun k => (fun A : list R => A)
                         (map (fun row => nth (Z.to_nat k) row 0%R)
                              (repeat (repeat 1%R 5) 5)))
             ks).
Proof.
  apply (C10_sampled_columns (fun A => A) (repeat (repeat 1%R 5) 5) 5 2).
  - lia.
  - reflexivity.
  - repeat constructor.
Defined.

(** ** Ranges with step 1 *)

Lemma range_up_seq (fuel : nat) :
  forall cur,
    Py.range_up fuel cur (cur + Z.of_nat fuel) 1 =
    map (fun i => (cur + Z.of_nat i)%Z) (seq 0 fuel).
Proof.
  induction fuel as [|fuel IH]; intros cur; [reflexivity|].
  cbn [Py.range_up seq map].
  destruct (Z.ltb_spec cur (cur + Z.of_nat (S fuel))) as [_|?]; [|lia].
  f_equal; [lia|].
  replace (cur + Z.of_nat (S fuel))%Z with (cur + 1 + Z.of_nat fuel)%Z by lia.
  rewrite IH, <- seq_shift, map_map.
  apply map_ext. intros i. lia.
Qed.

Lemma range2_seq (start stop : Z) :
  Py.range2 start stop =
  map (fun i => (start + Z.of_nat i)%Z) (seq 0 (Z.to_nat (stop - start))).
Proof.
  unfold Py.range2.
  destruct (Z.le_gt_cases start stop) as [Hle|Hgt].
  - replace stop with (start + Z.of_nat (Z.to_nat (stop - start)))%Z at 2 by lia.
    apply range_up_seq.
  - replace (Z.to_nat (stop - start)) with O by lia. reflexivity.
Qed.

Lemma range2_length (start stop : Z) :
  List.length (Py.range2 start stop) = Z.to_nat (stop - start).
Proof.
  now rewrite range2_seq, length_map, length_seq.
Qed.

(** ** The guards of the Savitzky-Golay filter *)

Lemma consecutive_product_even (p : Z) :
  (p + 1) * (p + 2) = 2 * ((p + 1) * (p + 2) / 2).
Proof.
  destruct (Z.Even_or_Odd p) as [[q ->]|[q ->]].
  - replace ((2 * q + 1) * (2 * q + 2)) with ((2 * q + 1) * (q + 1) * 2) by ring.
    rewrite Z.div_mul by lia. ring.
  - replace ((2 * q + 1 + 1) * (2 * q + 1 + 2)) with ((q + 1) * (2 * q + 3) * 2) by ring.
    rewrite Z.div_mul by lia. ring.
Qed.

Lemma n_terms_compare (W p : Z) :
  (inject_Z (W ^ 2) ?= n_terms p)%Q = (W * W ?= (p + 1) * (p + 2) / 2).
Proof.
  unfold n_terms, Qcompare, Qdiv, Qmult, Qinv, inject_Z. cbn.
  pose proof (consecutive_product_even p) as He.
  set (h := (p + 1) * (p + 2) / 2) in *.
  rewrite !Z.mul_1_r. rewrite He.
  replace (W ^ 2 * 2) with (2 * (W * W)) by ring.
  destruct (Z.compare_spec (W * W) h) as [E|L|G].
  - apply Z.compare_eq_iff. lia.
  - apply Z.compare_lt_iff. lia.
  - apply Z.compare_gt_iff. lia.
Qed.

(** The two guards, with the comparison of the float [n_terms] turned into
    a comparison of integers. *)
Lemma guards_spec (W p : Z) :
  sgolay2d_guards W p =
  if Z.even W then inl (Py.ValueError "window_size must be odd")
  else if W * W <? (p + 1) * (p + 2) / 2
       then inl (Py.ValueError "order is too high for the window size")
       else inr tt.
Proof.
  unfold sgolay2d_guards. rewrite n_terms_compare, Zeven_mod.
  destruct (W mod 2 =? 0); [reflexivity|].
  unfold Z.ltb. destruct (W * W ?= (p + 1) * (p + 2) / 2); reflexivity.
Qed.

Lemma concat_repeat_length (w : nat) (l : list R) :
  List.length (List.concat (repeat l w)) = (w * List.length l)%nat.
Proof.
  induction w as [|w IH]; [reflexivity|].
  cbn [repeat List.concat]. rewrite length_app, IH. lia.
Qed.

(** The grid of an odd window can be built. *)
Lemma window_points_odd (W : Z) :
  1 <= W -> Z.odd W = true -> exists pts, window_points W = inr pts.
Proof.
  intros HW Hodd. unfold window_points.
  assert (Hhalf : 0 <= W / 2) by (apply Z.div_pos; lia).
  assert (HW2 : W = 2 * (W / 2) + 1).
  { rewrite (Z.div_mod W 2) at 1 by lia. rewrite Zmod_odd, Hodd. lia. }
  rewrite concat_repeat_length, length_map, range2_length.
  destruct (Z.eqb_spec
              (Z.of_nat (Z.to_nat W * Z.to_nat (W / 2 + 1 - - (W / 2)))) (W ^ 2))
    as [_|Hne]; [eexists; reflexivity|].
  exfalso. apply Hne. nia.
Qed.


(** The top band fits when the window reaches beyond the pixel and the
    image has more rows than the window has on one side. *)
Lemma top_band_fits (z : list (list R)) (h : Z) :
  1 <= h -> h < fst (shape z) -> assign_top_band z h = inr tt.
Proof.
  intros Hh Hrows. unfold assign_top_band, top_band_shapes.
  assert (Hcols : 0 <= snd (shape z)) by (unfold shape; cbn [snd]; lia).
  set (rows := fst (shape z)) in *. set (cols := snd (shape z)) in *.
  destruct (Z.eqb_spec rows 0) as [?|_]; [lia|].
  cbn [fst snd].
  assert (H1 : slice_len rows 1 (h + 1) = h).
  { unfold slice_len, slice_bound.
    destruct (Z.ltb_spec (h + 1) 0); destruct (Z.ltb_spec 1 0); lia. }
  assert (H2 : slice_len (rows + 2 * h) 0 h = h).
  { unfold slice_len, slice_bound.
    destruct (Z.ltb_spec h 0); destruct (Z.ltb_spec 0 0); lia. }
  assert (H3 : slice_len (cols + 2 * h) h (- h) = cols).
  { unfold slice_len, slice_bound.
    destruct (Z.ltb_spec (- h) 0); destruct (Z.ltb_spec h 0); lia. }
  unfold broadcastable. cbn [fst snd]. rewrite H1, H2, H3, !Z.eqb_refl.
  reflexivity.
Qed.


(** Behind the guards, a window of at least 3 pixels on an image with more
    rows than the window has on one side reaches the rest of the body. *)
Lemma sgolay2d_passes
      (filter_rest : list (list R) -> Z -> Z -> Py.result (list (list R)))
      (z : list (list R)) (W p : Z) :
  Z.odd W = true -> (p + 1) * (p + 2) / 2 <= W * W -> 3 <= W ->
  W / 2 < fst (shape z) ->
  sgolay2d filter_rest z W p = filter_rest z W p.
Proof.
  intros Hodd Hterms HW Hrows.
  unfold sgolay2d, sgolay2d_body. rewrite guards_spec.
  rewrite <- Z.negb_odd, Hodd. cbn [negb].
  destruct (Z.ltb_spec (W * W) ((p + 1) * (p + 2) / 2)) as [?|_]; [lia|].
  cbn [Py.bind].
  destruct (window_points_odd W ltac:(lia) Hodd) as [pts ->]. cbn [Py.bind].
  rewrite top_band_fits; [reflexivity| |exact Hrows].
  apply Z.div_le_lower_bound; lia.
Qed.



(** ** The batch driver and unreadable images *)

Section BatchFacts.

Variables image stats : Type.
Variable Image_open : string -> Py.result image.
Variable analyse : image -> Py.result stats.
Variable writeout : string -> stats -> Py.result unit.

(** One round of the loop succeeds exactly when the file is opened,
    analysed and written without an exception. *)
Lemma process_item_ok (item : string) (r : stats) :
  process_item image stats Image_open analyse writeout item = inr r <->
  exists im, Image_open item = inr im /\ analyse im = inr r /\
             writeout item r = inr tt.
Proof.
  unfold process_item, processimage, processimage_open. split.
  - destruct (Image_open item) as [e|im]; [destruct e; discriminate|].
    cbn [Py.bind]. destruct (analyse im) as [e|r'] eqn:Ea; [discriminate|].
    cbn [Py.bind]. destruct (writeout item r') as [e|[]] eqn:Ew; [discriminate|].
    cbn [Py.bind Py.ret]. intros H. injection H as <-.
    exists im. repeat split; assumption.
  - intros [im [-> [Ha Hw]]]. cbn [Py.bind]. rewrite Ha. cbn [Py.bind].
    rewrite Hw. reflexivity.
Qed.

Lemma process_item_unreadable (item : string) :
  Image_open item = inl Py.IOError ->
  processimage image stats Image_open analyse item = inl (Py.SystemExit 2) /\
  process_item image stats Image_open analyse writeout item =
  inl (Py.SystemExit 2).
Proof.
  intros Hbad. unfold process_item, processimage, processimage_open.
  rewrite Hbad. split; reflexivity.
Qed.

Lemma process_files_app (a b : list string) :
  forall st,
    process_files image stats Image_open analyse writeout (a ++ b) st =
    match process_files image stats Image_open analyse writeout a st with
    | Completed st' => process_files image stats Image_open analyse writeout b st'
    | Terminated e st' => Terminated e st'
    end.
Proof.
  induction a as [|item a IH]; intros st; [reflexivity|].
  cbn [app process_files].
  destruct (process_item image stats Image_open analyse writeout item);
    [reflexivity|].
  apply IH.
Qed.

Lemma process_groups_concat (groups : list (list string)) :
  forall st,
    process_groups image stats Image_open analyse writeout groups st =
    process_files image stats Image_open analyse writeout (List.concat groups) st.
Proof.
  induction groups as [|files more IH]; intros st; [reflexivity|].
  cbn [process_groups List.concat]. rewrite process_files_app.
  destruct (process_files image stats Image_open analyse writeout files st);
    [apply IH|reflexivity].
Qed.

(** Files that are all opened, analysed and written. *)
Lemma process_files_readable (pre : list string) :
  Forall (fun item =>
            exists im r, Image_open item = inr im /\ analyse im = inr r /\
                         writeout item r = inr tt) pre ->
  forall st,
  exists results,
    Forall2 (fun item r => exists im, Image_open item = inr im /\
                                      analyse im = inr r)
            pre results /\
    process_files image stats Image_open analyse writeout pre st =
    Completed (mk_run_state stats
                 (count st + Z.of_nat (List.length pre))
                 (written st ++ combine pre results)).
Proof.
  induction 1 as [|item pre Hitem _ IH]; intros st.
  - exists []. split; [constructor|].
    cbn. rewrite Z.add_0_r, app_nil_r. now destruct st.
  - destruct Hitem as [im [r [Ho [Ha Hw]]]].
    assert (Hstep : process_item image stats Image_open analyse writeout item
                    = inr r).
    { apply process_item_ok. exists im. repeat split; assumption. }
    destruct (IH (mk_run_state stats (count st + 1) (written st ++ [(item, r)])))
      as [results [HF Hrun]].
    exists (r :: results). split.
    + constructor; [exists im; split; assumption|exact HF].
    + cbn [process_files]. rewrite Hstep, Hrun. cbn [count written].
      f_equal. f_equal.
      * cbn [List.length]. lia.
      * cbn [combine]. now rewrite <- app_assoc.
Qed.

(** A run over a list that holds an unreadable file never completes, and
    what it has written when it ends are results for some of the files
    before the unreadable one, in their order. *)
Lemma process_files_stops (pre post : list string) (bad : string) :
  Image_open bad = inl Py.IOError ->
  forall st,
  exists e st' k,
    process_files image stats Image_open analyse writeout (pre ++ bad :: post) st =
    Terminated e st' /\
    (k <= List.length pre)%nat /\
    map fst (written st') = map fst (written st) ++ firstn k pre /\
    count st' = count st + Z.of_nat k.
Proof.
  intros Hbad. induction pre as [|item pre IH]; intros st.
  - exists (Py.SystemExit 2), st, O. cbn [app process_files].
    destruct (process_item_unreadable bad Hbad) as [_ ->].
    split; [reflexivity|]. split; [cbn; lia|].
    split; [cbn [firstn]; now rewrite app_nil_r|cbn; lia].
  - cbn [app process_files].
    destruct (process_item image stats Image_open analyse writeout item)
      as [e|r].
    + exists e, st, O. split; [reflexivity|]. split; [cbn; lia|].
      split; [cbn [firstn]; now rewrite app_nil_r|cbn; lia].
    + destruct (IH (mk_run_state stats (count st + 1) (written st ++ [(item, r)])))
        as [e [st' [k [Hrun [Hk [Hw Hc]]]]]].
      exists e, st', (S k). split; [exact Hrun|]. split; [cbn; lia|].
      cbn [count written] in Hw, Hc. split.
      * rewrite Hw, map_app. cbn [map fst firstn]. now rewrite <- app_assoc.
      * rewrite Hc. lia.
Qed.

End BatchFacts.

(** C9, as the program behaves.  An image that cannot be opened makes
    [processimage] leave the program with exit status 2.  A run over files
    one of which cannot be opened never completes: it ends with an exception
    when results have been written for some of the files before the
    unreadable one, none for that file or for a file after it.  When every
    file before it is opened, analysed and written without an exception,
    the run ends with exit status 2 at the unreadable file, the results of
    all the files before it having been written. *)
Theorem C9_unreadable_image_terminates_run :
  forall (image stats : Type) (Image_open : string -> Py.result image)
         (analyse : image -> Py.result stats)
         (writeout : string -> stats -> Py.result unit)
         (groups : list (list string)) (pre post : list string) (bad : string),
    List.concat groups = pre ++ bad :: post ->
    Image_open bad = inl Py.IOError ->
    processimage image stats Image_open analyse bad = inl (Py.SystemExit 2) /\
    (exists e st k,
        main image stats Image_open analyse writeout groups = Terminated e st /\
        (k <= List.length pre)%nat /\
        map fst (written st) = firstn k pre /\
        count st = Z.of_nat k) /\
    (Forall (fun item =>
               exists im r, Image_open item = inr im /\ analyse im = inr r /\
                            writeout item r = inr tt) pre ->
     exists results,
       Forall2 (fun item r => exists im, Image_open item = inr im /\
                                         analyse im = inr r)
               pre results /\
       main image stats Image_open analyse writeout groups =
       Terminated (Py.SystemExit 2)
                  (mk_run_state stats (Z.of_nat (List.length pre))
                                (combine pre results))).
Proof.
  intros image stats Image_open analyse writeout groups pre post bad Hsplit Hbad.
  destruct (process_item_unreadable image stats Image_open analyse writeout
              bad Hbad) as [Hexit Hstep].
  split; [exact Hexit|]. split.
  - destruct (process_files_stops image stats Image_open analyse writeout
                pre post bad Hbad (mk_run_state stats 0 []))
      as [e [st [k [Hrun [Hk [Hw Hc]]]]]].
    exists e, st, k. unfold main. rewrite process_groups_concat, Hsplit.
    split; [exact Hrun|]. split; [exact Hk|]. split; [exact Hw|].
    rewrite Hc. cbn [count]. lia.
  - intros Hpre.
    destruct (process_files_readable image stats Image_open analyse writeout
                pre Hpre (mk_run_state stats 0 [])) as [results [HF Hrun]].
    exists results. split; [exact HF|].
    unfold main. rewrite process_groups_concat, Hsplit, process_files_app, Hrun.
    cbn [process_files count written]. rewrite Hstep. reflexivity.
Qed.

(** Three files in two groups, the second one unreadable. *)
Lemma C9_unreadable_image_terminates_run_witness :
  let Image_open :=
    fun item : string =>
      if String.eqb item "bad.jpg" then inl Py.IOError else inr tt in
  let analyse := fun im : unit => @inr Py.exn unit im in
  let writeout := fun (_ : string) (_ : unit) => @inr Py.exn unit tt in
  let groups := [["a.jpg"; "bad.jpg"]; ["good.png"]]%string in
  let pre := ["a.jpg"%string] in
  processimage unit unit Image_open analyse "bad.jpg" = inl (Py.SystemExit 2) /\
  (exists e st k,
      main unit unit Image_open analyse writeout groups = Terminated e st /\
      (k <= List.length pre)%nat /\
      map fst (written st) = firstn k pre /\
      count st = Z.of_nat k) /\
  (Forall (fun item =>
             exists im r, Image_open item = inr im /\ analyse im = inr r /\
                          writeout item r = inr tt) pre ->
   exists results,
     Forall2 (fun item r => exists im, Image_open item = inr im /\
                                       analyse im = inr r)
             pre results /\
     main unit unit Image_open analyse writeout groups =
     Terminated (Py.SystemExit 2)
                (mk_run_state unit (Z.of_nat (List.length pre))
                              (combine pre results))).
Proof.
  cbv zeta.
  apply (C9_unreadable_image_terminates_run unit unit
           (fun item : string =>
              if String.eqb item "bad.jpg" then inl Py.IOError else inr tt)
           (fun im : unit => inr im)
           (fun (_ : string) (_ : unit) => inr tt)
           [["a.jpg"; "bad.jpg"]; ["good.png"]]%string
           ["a.jpg"%string] ["good.png"%string] "bad.jpg"%string).
  - reflexivity.
  - reflexivity.
Defined.

(** C9, as the specification words it, fails: with an unreadable file
    followed by a file that can be opened, analysed and written, the run
    does not complete and the second file is never analysed. *)
Lemma C9_counterexample :
  let Image_open :=
    fun item : string =>
      if String.eqb item "bad.jpg" then inl Py.IOError else inr tt in
  let analyse := fun im : unit => @inr Py.exn unit im in
  let writeout := fun (_ : string) (_ : unit) => @inr Py.exn unit tt in
  let run :=
    main unit unit Image_open analyse writeout [["bad.jpg"; "good.jpg"]]%string in
  process_item unit unit Image_open analyse writeout "good.jpg" = inr tt /\
  run = Terminated (Py.SystemExit 2) (mk_run_state unit 0 []) /\
  ~ (exists st, run = Completed st /\
                In "good.jpg"%string (map fst (written st))).
Proof.
  cbv zeta. split; [reflexivity|]. split; [reflexivity|].
  intros [st [Hrun _]]. discriminate.
Qed.

(** ** Sums and normalisation *)

Local Open Scope R_scope.

Lemma sum_div_scalar (a : list R) (s : R) :
  Np.sum (Np.div_scalar a s) = Np.sum a / s.
Proof.
  unfold Np.sum, Np.div_scalar.
  induction a as [|x a IH]; cbn [map fold_right].
  - unfold Rdiv. ring.
  - rewrite IH. unfold Rdiv. ring.
Qed.

Lemma sum_normalised (a : list R) :
  Np.sum a <> 0 -> Np.sum (Np.div_scalar a (Np.sum a)) = 1.
Proof.
  intros Hs. rewrite sum_div_scalar. now field.
Qed.

Lemma py_sum_np_sum (a : list R) : Np.py_sum a = Np.sum a.
Proof.
  unfold Np.py_sum, Np.sum. apply fold_symmetric.
  - intros x y z. ring.
  - intros x. ring.
Qed.

(** C4. When the vector of per-scale variances across columns has a nonzero
    sum, the density vector sums to 1 right after the first normalisation;
    when its product with the Kaiser window has a nonzero sum, the density
    vector sums to 1 again right after the second normalisation. *)
Theorem C4_density_sums_to_one :
  forall (kaiser : nat -> Z -> list R) (d : list (list R)) (nscales : nat)
         (mult : Z),
    Np.sum (column_variance d nscales) <> 0 ->
    Np.sum (windowed kaiser (varcwt1 d nscales) mult) <> 0 ->
    Np.sum (varcwt1 d nscales) = 1 /\
    Np.sum (svarcwt kaiser (varcwt1 d nscales) mult) = 1.
Proof.
  intros kaiser d nscales mult Hvar Hwin. split.
  - unfold varcwt1. now apply sum_normalised.
  - unfold svarcwt. now apply sum_normalised.
Qed.

Ltac np_eval :=
  cbv [svarcwt windowed varcwt1 column_variance mnsz srt sk kurt retain
       Np.div_scalar Np.mul_scalar Np.mul Np.take Np.transpose Np.reshape
       Np.flatten Np.rows_of Np.var Np.mean Np.sum Np.std
       List.concat app List.length combine repeat firstn skipn seq map nth
       fold_right fst snd INR].

(** Two columns, two scales, and a rectangular window. *)
Lemma C4_density_sums_to_one_witness :
  Np.sum (varcwt1 [[1; 0]; [0; 1]] 2) = 1 /\
  Np.sum (svarcwt (fun n _ => repeat 1 n) (varcwt1 [[1; 0]; [0; 1]] 2) 6) = 1.
Proof.
  apply (C4_density_sums_to_one (fun n _ => repeat 1 n) [[1; 0]; [0; 1]] 2%nat 6%Z).
  - np_eval. lra.
  - np_eval. lra.
Defined.

(** ** The summary statistics *)

Lemma sum_mul_indexed (f : R -> R) (density : list R) :
  forall sizes,
    List.length sizes = List.length density ->
    Np.sum (Np.mul density (map f sizes)) =
    Np.sum (map (fun i => nth i density 0 * f (nth i sizes 0))
                (seq 0 (List.length density))).
Proof.
  unfold Np.sum, Np.mul.
  induction density as [|w density IH]; intros [|s sizes] Hlen;
    try discriminate; [reflexivity|].
  cbn [List.length seq map combine fold_right fst snd nth].
  rewrite <- seq_shift, map_map. cbn [nth].
  f_equal. apply IH. cbn in Hlen. congruence.
Qed.

Lemma statistics_spec (sizes density : list R) :
  List.length sizes = List.length density ->
  mnsz sizes density = spec_mean sizes density /\
  srt sizes density = spec_stdev sizes density /\
  sk sizes density = spec_skewness sizes density /\
  kurt sizes density = spec_kurtosis sizes density.
Proof.
  intros Hlen.
  assert (Hm : mnsz sizes density = spec_mean sizes density).
  { unfold mnsz, spec_mean. rewrite <- (map_id sizes) at 1.
    now rewrite (sum_mul_indexed (fun x => x)). }
  assert (Hs : srt sizes density = spec_stdev sizes density).
  { unfold srt, spec_stdev, weighted_moment. rewrite Hm.
    now rewrite (sum_mul_indexed (fun s => (s - spec_mean sizes density) ^ 2)). }
  split; [exact Hm|]. split; [exact Hs|]. split.
  - unfold sk, spec_skewness, weighted_moment. rewrite Hs, Hm, py_sum_np_sum.
    now rewrite (sum_mul_indexed (fun s => (s - spec_mean sizes density) ^ 3)).
  - unfold kurt, spec_kurtosis, weighted_moment. rewrite Hs, Hm, py_sum_np_sum.
    now rewrite (sum_mul_indexed (fun s => (s - spec_mean sizes density) ^ 4)).
Qed.

Lemma retain_lengths (scales density : list R) (ny : Z) (resolution : R) :
  List.length (fst (retain scales density ny resolution)) =
  List.length (snd (retain scales density ny resolution)).
Proof.
  unfold retain, Np.mul_scalar, Np.take. cbn [fst snd].
  now rewrite !length_map.
Qed.

(** C3. The four statistics [processimage] returns are functions of the
    sizes and the density it returns with them: the mean is the sum of
    density times size, the standard deviation the square root of the sum of
    density times squared deviation, the skewness and the kurtosis the third
    and fourth weighted central moments over [100 * stdev^3] and
    [100 * stdev^4].  For the density [0.5, 0.5] and the sizes [1.0, 3.0]
    the mean is 2 and the standard deviation 1. *)
Theorem C3_statistics :
  (forall (kaiser : nat -> Z -> list R) (region d : list (list R))
          (scales : list R) (ny : Z) (resolution : R),
      let r := aggregate kaiser region d scales ny resolution in
      psd_mnsz r = spec_mean (psd_scales r) (psd_svarcwt r) /\
      psd_srt r = spec_stdev (psd_scales r) (psd_svarcwt r) /\
      psd_sk r = spec_skewness (psd_scales r) (psd_svarcwt r) /\
      psd_kurt r = spec_kurtosis (psd_scales r) (psd_svarcwt r)) /\
  mnsz [1.0; 3.0] [0.5; 0.5] = 2.0 /\
  srt [1.0; 3.0] [0.5; 0.5] = 1.0.
Proof.
  split.
  - intros kaiser region d scales ny resolution r. subst r.
    unfold aggregate. cbn [psd_mnsz psd_srt psd_sk psd_kurt psd_scales psd_svarcwt].
    apply statistics_spec. apply retain_lengths.
  - assert (Hm : mnsz [1.0; 3.0] [0.5; 0.5] = 2.0).
    { np_eval. lra. }
    split; [exact Hm|].
    unfold srt. rewrite Hm. np_eval.
    replace (0.5 * (1.0 - 2.0) ^ 2 + (0.5 * (3.0 - 2.0) ^ 2 + 0)) with 1 by lra.
    rewrite sqrt_1. lra.
Qed.

(** ** Discarding the largest scales *)

Lemma take_nonzero_from (t : R) (a : list R) :
  forall (b pre_a pre_b : list R) (n : nat),
    List.length pre_a = n -> List.length pre_b = n ->
    List.length a = List.length b ->
    combine (Np.take (pre_a ++ a) (Np.nonzero_from n (Np.less a t)))
            (Np.take (pre_b ++ b) (Np.nonzero_from n (Np.less a t))) =
    filter (fun p => if Rlt_dec (fst p) t then true else false) (combine a b).
Proof.
  induction a as [|x a IH]; intros [|y b] pre_a pre_b n Ha Hb Hlen;
    try discriminate; [reflexivity|].
  cbn [Np.less map Np.nonzero_from combine filter fst].
  assert (Hstep :
    combine (Np.take (pre_a ++ x :: a) (Np.nonzero_from (S n) (Np.less a t)))
            (Np.take (pre_b ++ y :: b) (Np.nonzero_from (S n) (Np.less a t))) =
    filter (fun p => if Rlt_dec (fst p) t then true else false) (combine a b)).
  { replace (pre_a ++ x :: a) with ((pre_a ++ [x]) ++ a)
      by (now rewrite <- app_assoc).
    replace (pre_b ++ y :: b) with ((pre_b ++ [y]) ++ b)
      by (now rewrite <- app_assoc).
    apply IH.
    - rewrite length_app. cbn. lia.
    - rewrite length_app. cbn. lia.
    - cbn in Hlen. congruence. }
  destruct (Rlt_dec x t) as [Hlt|Hge].
  - cbn [Np.take map combine]. f_equal.
    + f_equal.
      * rewrite app_nth2 by lia. rewrite Ha, Nat.sub_diag. reflexivity.
      * rewrite app_nth2 by lia. rewrite Hb, Nat.sub_diag. reflexivity.
    + exact Hstep.
  - exact Hstep.
Qed.

Lemma combine_map_fst {A B A'} (f : A -> A') (a : list A) :
  forall b : list B,
    combine (map f a) b = map (fun p => (f (fst p), snd p)) (combine a b).
Proof.
  induction a as [|x a IH]; intros [|y b]; cbn; try reflexivity.
  now rewrite IH.
Qed.

(** C6, as the program behaves.  [ny / 3] is a division of integers: an
    entry is kept exactly when its scale is strictly below the integer part
    of [ny / 3].  The kept scales and densities stay paired and in order,
    and each kept scale is multiplied by 1.5 and then by the resolution. *)
Theorem C6_retained_scales :
  forall (scales density : list R) (ny : Z) (resolution : R),
    List.length scales = List.length density ->
    let kept := retain scales density ny resolution in
    List.length (fst kept) = List.length (snd kept) /\
    combine (fst kept) (snd kept) =
    map (fun p => (fst p * 1.5 * resolution, snd p))
        (filter (fun p => if Rlt_dec (fst p) (IZR (ny / 3)) then true else false)
                (combine scales density)).
Proof.
  intros scales density ny resolution Hlen kept. subst kept.
  split; [apply retain_lengths|].
  unfold retain, Np.mul_scalar, Np.nonzero. cbn [fst snd].
  rewrite map_map, combine_map_fst.
  pose proof (take_nonzero_from (IZR (ny / 3)) scales density [] [] 0
                eq_refl eq_refl Hlen) as Hkeep.
  cbn [app] in Hkeep. now rewrite Hkeep.
Qed.

(** The scales 3 and 16/3 of a 17-pixel column: only 3 is kept. *)
Lemma C6_retained_scales_witness :
  let kept := retain [3; 16 / 3] [0.5; 0.5] 17 1 in
  List.length (fst kept) = List.length (snd kept) /\
  combine (fst kept) (snd kept) =
  map (fun p => (fst p * 1.5 * 1, snd p))
      (filter (fun p => if Rlt_dec (fst p) (IZR (17 / 3)) then true else false)
              (combine [3; 16 / 3] [0.5; 0.5])).
Proof.
  apply (C6_retained_scales [3; 16 / 3] [0.5; 0.5] 17 1).
  reflexivity.
Defined.

(** C6, as the specification words it, fails.  For a column of 17 pixels the
    padded transform has the scale 16/3, which is below 17/3; the program
    compares it with the integer 17/3 = 5 and discards it. *)
Lemma C6_counterexample :
  16 / 3 < 17 / 3 /\
  retain [16 / 3] [1] 17 1 = ([], []) /\
  ~ (forall s, In s [16 / 3] -> s < 17 / 3 ->
               In (s * 1.5 * 1) (fst (retain [16 / 3] [1] 17 1))).
Proof.
  assert (Hr : retain [16 / 3] [1] 17 1 = ([], [])).
  { unfold retain, Np.nonzero, Np.less. cbn [map Np.nonzero_from].
    change (17 / 3)%Z with 5%Z.
    destruct (Rlt_dec (16 / 3) 5) as [Hlt|_]; [lra|reflexivity]. }
  split; [lra|]. split; [exact Hr|].
  intros H. rewrite Hr in H.
  apply (H (16 / 3)); [now left|lra].
Qed.

(** ** The shape parameter of the Kaiser window *)

Lemma trunc_floor (r : R) (z : Z) :
  0 <= IZR z -> IZR z <= r -> r < IZR z + 1 -> Np.trunc r = z.
Proof.
  intros Hz Hlo Hhi. unfold Np.trunc.
  destruct (Rle_dec 0 r) as [_|Hneg]; [|lra].
  symmetry. apply Int_part_spec. lra.
Qed.

Lemma trunc_nonneg (r : R) : 0 <= r -> Np.trunc r = Int_part r.
Proof.
  intros Hr. unfold Np.trunc. destruct (Rle_dec 0 r); [reflexivity|lra].
Qed.

(** C7, as the program behaves.  [int] drops the fractional part: for an
    image whose intensities have a positive standard deviation,
    [mult = 6 * floor(100 / stddev)], and the window that multiplies the
    normalised variance vector is [kaiser(len(varcwt1), mult)]. *)
Theorem C7_kaiser_shape_parameter :
  forall (kaiser : nat -> Z -> list R) (region : list (list R)) (v : list R),
    0 < Np.std (Np.flatten region) ->
    mult region = (6 * Int_part (100 / Np.std (Np.flatten region)))%Z /\
    windowed kaiser v (mult region) =
    Np.mul v (kaiser (List.length v)
                     (6 * Int_part (100 / Np.std (Np.flatten region)))%Z).
Proof.
  intros kaiser region v Hstd.
  assert (Hm : mult region = (6 * Int_part (100 / Np.std (Np.flatten region)))%Z).
  { unfold mult. rewrite trunc_nonneg.
    - do 2 f_equal. unfold Rdiv. ring.
    - apply Rmult_le_pos; [lra|].
      unfold Rdiv. rewrite Rmult_1_l. left. now apply Rinv_0_lt_compat. }
  split; [exact Hm|]. unfold windowed. now rewrite Hm.
Qed.

Lemma std_checkerboard : Np.std (Np.flatten [[0; 120]; [120; 0]]) = 60.
Proof.
  unfold Np.std. apply sqrt_lem_1.
  - np_eval. lra.
  - lra.
  - np_eval. lra.
Qed.

(** A 2 x 2 image with the intensities 0 and 120. *)
Lemma C7_kaiser_shape_parameter_witness :
  mult [[0; 120]; [120; 0]] =
  (6 * Int_part (100 / Np.std (Np.flatten [[0; 120]; [120; 0]]%R)))%Z /\
  windowed (fun n _ => repeat 1 n) [1] (mult [[0; 120]; [120; 0]]) =
  Np.mul [1] ((fun n (_ : Z) => repeat 1 n) (List.length [1])
                (6 * Int_part (100 / Np.std (Np.flatten [[0; 120]; [120; 0]]%R)))%Z).
Proof.
  apply (C7_kaiser_shape_parameter (fun n _ => repeat 1 n) [[0; 120]; [120; 0]] [1]).
  rewrite std_checkerboard. lra.
Defined.

(** C7, as the specification words it, fails.  The intensities of this image
    have standard deviation 60; 100/60 rounds to 2, which would give the
    shape parameter 12, and the program computes 6. *)
Lemma C7_counterexample :
  mult [[0; 120]; [120; 0]] = 6%Z /\
  ~ (exists r, nearest_integer (100 / Np.std (Np.flatten [[0; 120]; [120; 0]])) r /\
               mult [[0; 120]; [120; 0]] = (6 * r)%Z).
Proof.
  assert (Hm : mult [[0; 120]; [120; 0]] = 6%Z).
  { unfold mult. rewrite std_checkerboard.
    rewrite (trunc_floor (100 * (1 / 60)) 1); [reflexivity|lra|lra|lra]. }
  split; [exact Hm|].
  intros [r [Hr Hmr]]. rewrite Hm in Hmr.
  assert (r = 1%Z) by lia. subst r.
  unfold nearest_integer in Hr. rewrite std_checkerboard in Hr.
  replace (100 / 60 - 1) with (2 / 3) in Hr by lra.
  rewrite Rabs_pos_eq in Hr by lra. lra.
Qed.

(** ** Loops that fill an array *)

Lemma setitem_length {A} (a : list A) :
  forall i v, List.length (Np.setitem a i v) = List.length a.
Proof.
  induction a as [|x a IH]; intros [|i] v; cbn; try reflexivity.
  now rewrite IH.
Qed.

Lemma setitem_nth_same {A} (a : list A) :
  forall i v d, (i < List.length a)%nat -> nth i (Np.setitem a i v) d = v.
Proof.
  induction a as [|x a IH]; intros [|i] v d Hi; cbn in *; try lia.
  - reflexivity.
  - apply IH. lia.
Qed.

Lemma setitem_nth_other {A} (a : list A) :
  forall i j v d, i <> j -> nth j (Np.setitem a i v) d = nth j a d.
Proof.
  induction a as [|x a IH]; intros [|i] [|j] v d Hij; cbn; try reflexivity.
  - congruence.
  - apply IH. congruence.
Qed.

Lemma fill_seq {A} (f : Z -> A) (m : nat) :
  forall (s : nat) (a : list A),
    let filled :=
      fold_left (fun a j => Np.setitem a (Z.to_nat j) (f j))
                (map (fun i => (0 + Z.of_nat i)%Z) (seq s m)) a in
    List.length filled = List.length a /\
    forall j d,
      nth j filled d =
      if (s <=? j)%nat && (j <? s + m)%nat && (j <? List.length a)%nat
      then f (Z.of_nat j) else nth j a d.
Proof.
  induction m as [|m IH]; intros s a; cbn zeta.
  - cbn [seq map fold_left]. split; [reflexivity|]. intros j d.
    destruct (Nat.leb_spec s j); destruct (Nat.ltb_spec j (s + 0));
      cbn [andb]; try reflexivity; lia.
  - cbn [seq map fold_left].
    destruct (IH (S s) (Np.setitem a (Z.to_nat (0 + Z.of_nat s)) (f (0 + Z.of_nat s)%Z)))
      as [Hlen Hnth].
    cbn zeta in Hlen, Hnth. rewrite setitem_length in Hlen, Hnth.
    split; [exact Hlen|]. intros j d. rewrite Hnth.
    replace (Z.to_nat (0 + Z.of_nat s)) with s by lia.
    replace (0 + Z.of_nat s)%Z with (Z.of_nat s) by lia.
    destruct (Nat.leb_spec (S s) j); destruct (Nat.ltb_spec j (S s + m));
      destruct (Nat.ltb_spec j (List.length a));
      destruct (Nat.leb_spec s j); destruct (Nat.ltb_spec j (s + S m));
      cbn [andb]; try reflexivity; try lia.
    all: try (rewrite setitem_nth_other by lia; reflexivity).
    all: assert (j = s) by lia; subst j.
    all: try (now rewrite setitem_nth_same).
    all: rewrite (nth_overflow a) by lia.
    all: apply nth_overflow; rewrite setitem_length; lia.
Qed.

Lemma fill_length {A} (a : list A) (n : Z) (f : Z -> A) :
  List.length (Cwt.fill a n f) = List.length a.
Proof.
  unfold Cwt.fill. rewrite range2_seq. apply (fill_seq f).
Qed.

Lemma fill_nth {A} (a : list A) (n : Z) (f : Z -> A) (j : Z) (d : A) :
  (0 <= j < n)%Z -> (Z.to_nat j < List.length a)%nat ->
  nth (Z.to_nat j) (Cwt.fill a n f) d = f j.
Proof.
  intros Hj Ha. unfold Cwt.fill. rewrite range2_seq.
  destruct (fill_seq f (Z.to_nat (n - 0)) 0 a) as [_ Hnth].
  cbn zeta in Hnth. rewrite Hnth.
  destruct (Nat.ltb_spec (Z.to_nat j) (0 + Z.to_nat (n - 0))); [|lia].
  destruct (Nat.ltb_spec (Z.to_nat j) (List.length a)); [|lia].
  cbn [Nat.leb andb]. f_equal. lia.
Qed.

(** ** The scales of the transform *)

Lemma ln2_pos : 0 < ln 2.
Proof. pose proof ln_lt_2. lra. Qed.

Lemma ln2_lt_1 : ln 2 < 1.
Proof.
  rewrite <- (ln_exp 1). apply ln_increasing; [lra|].
  pose proof (exp_ineq1 1). lra.
Qed.

Lemma ln_le (x y : R) : 0 < x -> x <= y -> ln x <= ln y.
Proof.
  intros Hx [Hlt | Heq]; [|subst; lra]. left. now apply ln_increasing.
Qed.

Lemma ln_le_sub1 (y : R) : 0 < y -> ln y <= y - 1.
Proof.
  intros Hy. pose proof (exp_ineq1_le (ln y)) as H.
  rewrite exp_ln in H by exact Hy. lra.
Qed.

Lemma ln_pow2 (k : Z) : (0 <= k)%Z -> ln (IZR (2 ^ k)) = IZR k * ln 2.
Proof.
  intros Hk. rewrite <- (Z2Nat.id k Hk) at 1.
  rewrite <- pow_IZR, ln_pow by lra.
  now rewrite INR_IZR_INZ, Z2Nat.id.
Qed.

Lemma pow2_pos (k : Z) : (0 <= k)%Z -> 0 < IZR (2 ^ k).
Proof.
  intros Hk. apply IZR_lt. now apply Z.pow_pos_nonneg.
Qed.

(** [exp (5/8) <= 2], hence [5/8 <= ln 2]. *)
Lemma ln2_lower : 5 / 8 <= ln 2.
Proof.
  rewrite <- (ln_exp (5 / 8)). apply ln_le; [apply exp_pos|].
  set (a := exp (5 / 32)).
  assert (Ha : 0 < a) by apply exp_pos.
  assert (Hinv : 27 / 32 <= exp (- (5 / 32))).
  { pose proof (exp_ineq1_le (- (5 / 32))). lra. }
  assert (Hprod : a * exp (- (5 / 32)) = 1).
  { unfold a. rewrite <- exp_plus. replace (5 / 32 + - (5 / 32)) with 0 by lra.
    apply exp_0. }
  assert (Hub : a <= 32 / 27).
  { assert (a * (27 / 32) <= 1) by (rewrite <- Hprod; apply Rmult_le_compat_l; lra).
    lra. }
  replace (5 / 8) with (5 / 32 + 5 / 32 + (5 / 32 + 5 / 32)) by lra.
  rewrite !exp_plus. fold a.
  assert (H2 : a * a <= 32 / 27 * (32 / 27)) by (apply Rmult_le_compat; lra).
  assert (H4 : a * a * (a * a) <= 32 / 27 * (32 / 27) * (32 / 27 * (32 / 27))).
  { apply Rmult_le_compat; try exact H2; nra. }
  lra.
Qed.

Lemma log2_margin (x : Z) :
  (1 <= x < 16383)%Z -> (8192 * x <= 8191 * 2 ^ (Z.log2 x + 1))%Z.
Proof.
  intros Hx.
  pose proof (Z.log2_spec x ltac:(lia)) as [Hlo Hhi].
  pose proof (Z.log2_nonneg x) as Hk0.
  assert (Hk13 : (Z.log2 x < 14)%Z).
  { apply Z.log2_lt_pow2; [lia|]. change (2 ^ 14)%Z with 16384%Z. lia. }
  set (k := Z.log2 x) in *.
  replace (Z.succ k) with (k + 1)%Z in Hhi by lia.
  destruct (Z_le_gt_dec k 12) as [Hle|Hgt].
  - assert (2 ^ (k + 1) <= 2 ^ 13)%Z by (apply Z.pow_le_mono_r; lia).
    change (2 ^ 13)%Z with 8192%Z in *. lia.
  - replace k with 13%Z by lia. change (2 ^ (13 + 1))%Z with 16384%Z. lia.
Qed.


(** [_log2] is the integer part of the base-2 logarithm whenever its
    argument is at most 8191/8192 of the next power of two. *)
Lemma log2_exact (x : Z) :
  (1 <= x)%Z -> (8192 * x <= 8191 * 2 ^ (Z.log2 x + 1))%Z ->
  Cwt._log2 x = inr (Z.log2 x).
Proof.
  intros Hx Hfrac. unfold Cwt._log2.
  destruct (Z.eqb_spec x 0) as [?|_]; [lia|].
  destruct (Z.ltb_spec x 0) as [?|_]; [lia|].
  unfold Py.ret. f_equal.
  pose proof (Z.log2_spec x ltac:(lia)) as [Hlo Hhi].
  pose proof (Z.log2_nonneg x) as Hk0.
  set (k := Z.log2 x) in *.
  pose proof ln2_pos as Hl2. pose proof ln2_lt_1 as Hl21.
  assert (Hx0 : 0 < IZR x) by (apply IZR_lt; lia).
  assert (Hlow : IZR k * ln 2 <= ln (IZR x)).
  { rewrite <- ln_pow2 by lia. apply ln_le; [apply pow2_pos; lia|].
    now apply IZR_le. }
  assert (Hupp : ln (IZR x) <= (IZR k + 1) * ln 2 - 1 / 8192).
  { assert (Hle : IZR x <= IZR (2 ^ (k + 1)) * (8191 / 8192)).
    { apply IZR_le in Hfrac. rewrite !mult_IZR in Hfrac. lra. }
    apply (ln_le _ _ Hx0) in Hle.
    rewrite ln_mult in Hle by (try lra; apply pow2_pos; lia).
    rewrite ln_pow2, plus_IZR in Hle by lia.
    pose proof (ln_le_sub1 (8191 / 8192) ltac:(lra)). lra. }
  apply trunc_floor.
  - apply IZR_le. lia.
  - apply Rplus_le_reg_r with (- 0.0001).
    replace (ln (IZR x) / ln 2 + 0.0001 + - 0.0001) with (ln (IZR x) / ln 2) by lra.
    apply Rmult_le_reg_r with (ln 2); [exact Hl2|].
    replace (ln (IZR x) / ln 2 * ln 2) with (ln (IZR x)) by (field; lra).
    nra.
  - apply Rmult_lt_reg_r with (ln 2); [exact Hl2|].
    replace ((ln (IZR x) / ln 2 + 0.0001) * ln 2)
      with (ln (IZR x) + 0.0001 * ln 2) by (field; lra).
    nra.
Qed.

Lemma log2_16383 : Cwt._log2 16383 = inr 14%Z.
Proof.
  unfold Cwt._log2. cbn [Z.eqb Z.ltb Z.compare]. unfold Py.ret. f_equal.
  pose proof ln2_pos as Hl2. pose proof ln2_lower as Hl2l.
  assert (H14 : ln 16384 = 14 * ln 2).
  { change 16384 with (IZR (2 ^ 14)). now rewrite ln_pow2 by lia. }
  assert (Hupp : ln 16383 < 14 * ln 2).
  { rewrite <- H14. apply ln_increasing; lra. }
  assert (Hlow : 14 * ln 2 - 1 / 16383 <= ln 16383).
  { assert (Hratio : ln (16384 / 16383) <= 1 / 16383).
    { pose proof (ln_le_sub1 (16384 / 16383) ltac:(lra)). lra. }
    assert (Hsplit : ln 16384 = ln 16383 + ln (16384 / 16383)).
    { rewrite <- ln_mult by lra. f_equal. field. }
    lra. }
  apply trunc_floor.
  - lra.
  - apply Rplus_le_reg_r with (- 0.0001).
    replace (ln 16383 / ln 2 + 0.0001 + - 0.0001) with (ln 16383 / ln 2) by lra.
    apply Rmult_le_reg_r with (ln 2); [exact Hl2|].
    replace (ln 16383 / ln 2 * ln 2) with (ln 16383) by (field; lra).
    nra.
  - apply Rmult_lt_reg_r with (ln 2); [exact Hl2|].
    replace ((ln 16383 / ln 2 + 0.0001) * ln 2)
      with (ln 16383 + 0.0001 * ln 2) by (field; lra).
    nra.
Qed.

Lemma Rpower2_IZR (k : Z) : (0 <= k)%Z -> Rpower 2 (IZR k) = IZR (2 ^ k).
Proof.
  intros Hk. unfold Rpower. rewrite <- ln_pow2 by exact Hk.
  apply exp_ln. now apply pow2_pos.
Qed.

Lemma Rpower2_fraction (n : Z) :
  (1 <= n)%Z -> 1 < Rpower 2 (1 / IZR n) <= 2.
Proof.
  intros Hn. pose proof ln2_pos as Hl2.
  assert (Hn1 : 1 <= IZR n) by (apply IZR_le; lia).
  assert (Hinv : 0 < 1 / IZR n <= 1).
  { split.
    - apply Rdiv_lt_0_compat; lra.
    - apply Rmult_le_reg_r with (IZR n); [lra|].
      replace (1 / IZR n * IZR n) with 1 by (field; lra). lra. }
  unfold Rpower. set (u := 1 / IZR n) in *. split.
  - rewrite <- exp_0. apply exp_increasing. apply Rmult_lt_0_compat; lra.
  - rewrite <- (exp_ln 2) at 2 by lra.
    destruct (Req_dec u 1) as [Heq|Hne].
    + rewrite Heq, Rmult_1_l. lra.
    + left. apply exp_increasing. nra.
Qed.

Lemma first_scale_bounds (N lsd notes k : Z) :
  (1 <= notes)%Z -> (1 <= lsd)%Z -> (0 <= k)%Z ->
  (2 ^ k <= N / lsd / 2 < 2 ^ (k + 1))%Z ->
  let s0 := IZR N / (IZR lsd * Rpower 2 (IZR (notes * k - 1 - 0) / IZR notes)) in
  2 * Rpower 2 (1 / IZR notes) <= s0 < 4 * Rpower 2 (1 / IZR notes).
Proof.
  intros Hnotes Hlsd Hk [Hlo Hhi] s0. subst s0.
  assert (Hn1 : 1 <= IZR notes) by (apply IZR_le; lia).
  assert (Hl1 : 1 <= IZR lsd) by (apply IZR_le; lia).
  pose proof (Rpower2_fraction notes Hnotes) as [Hr1 Hr2].
  pose proof (pow2_pos k Hk) as HP.
  set (r := Rpower 2 (1 / IZR notes)) in *.
  set (P := IZR (2 ^ k)) in *.
  assert (Hexp : Rpower 2 (IZR (notes * k - 1 - 0) / IZR notes) = P / r).
  { replace (IZR (notes * k - 1 - 0) / IZR notes)
      with (IZR k + - (1 / IZR notes)).
    - rewrite Rpower_plus, Rpower_Ropp, Rpower2_IZR by exact Hk. reflexivity.
    - rewrite !minus_IZR, mult_IZR. field. lra. }
  rewrite Hexp.
  rewrite Z.div_div in Hlo, Hhi by lia.
  pose proof (Z.mul_div_le N (lsd * 2) ltac:(lia)) as HNlo.
  pose proof (Z.mul_succ_div_gt N (lsd * 2) ltac:(lia)) as HNhi.
  set (x := (N / (lsd * 2))%Z) in *.
  assert (HN1 : 2 * IZR lsd * P <= IZR N).
  { unfold P. rewrite <- !mult_IZR. apply IZR_le. nia. }
  assert (HN2 : IZR N < 4 * IZR lsd * P).
  { unfold P. rewrite <- !mult_IZR. apply IZR_lt.
    replace (2 ^ (k + 1))%Z with (2 * 2 ^ k)%Z in Hhi
      by (rewrite Z.pow_add_r by lia; lia).
    nia. }
  replace (IZR N / (IZR lsd * (P / r))) with (IZR N / (IZR lsd * P) * r)
    by (field; lra).
  assert (HlP : 0 < IZR lsd * P) by nra.
  assert (Hq : 2 <= IZR N / (IZR lsd * P) < 4).
  { split.
    - apply Rmult_le_reg_r with (IZR lsd * P); [exact HlP|].
      replace (IZR N / (IZR lsd * P) * (IZR lsd * P)) with (IZR N) by (field; lra).
      lra.
    - apply Rmult_lt_reg_r with (IZR lsd * P); [exact HlP|].
      replace (IZR N / (IZR lsd * P) * (IZR lsd * P)) with (IZR N) by (field; lra).
      lra. }
  split; nra.
Qed.

(** C1, as the program behaves.  Let [x = N / largestscale / 2] (integer
    divisions), with [notes >= 1], [largestscale >= 1] and [x >= 2].  When
    [x < 16383] or, more generally, [x] is at most 8191/8192 of the next
    power of two, the "log" mode yields
    [nscale = notes * floor(log2 x)] scales; the scale of index [j] is
    [N / (largestscale * 2^((nscale - 1 - j) / notes))]; the smallest
    scale, of index 0, lies between [2 * 2^(1/notes)] and [4 * 2^(1/notes)],
    hence strictly between 2 and 8. *)
Theorem C1_log_scales :
  forall N lsd notes : Z,
    (1 <= notes)%Z -> (1 <= lsd)%Z -> (2 <= N / lsd / 2)%Z ->
    ((N / lsd / 2 < 16383)%Z \/
     (8192 * (N / lsd / 2) <= 8191 * 2 ^ (Z.log2 (N / lsd / 2) + 1))%Z) ->
    let nscale := (notes * Z.log2 (N / lsd / 2))%Z in
    exists scales,
      Cwt._setscales N lsd notes "log" = inr (nscale, scales) /\
      Z.of_nat (List.length scales) = nscale /\
      (forall j, (0 <= j < nscale)%Z ->
                 nth (Z.to_nat j) scales 0 =
                 IZR N / (IZR lsd * Rpower 2 (IZR (nscale - 1 - j) / IZR notes))) /\
      2 * Rpower 2 (1 / IZR notes) <= nth 0 scales 0 < 4 * Rpower 2 (1 / IZR notes) /\
      2 < nth 0 scales 0 < 8.
Proof.
  intros N lsd notes Hnotes Hlsd Hx Hmargin nscale.
  assert (Hfrac : (8192 * (N / lsd / 2)
                   <= 8191 * 2 ^ (Z.log2 (N / lsd / 2) + 1))%Z).
  { destruct Hmargin as [Hsmall|Hfrac]; [|exact Hfrac].
    apply log2_margin. lia. }
  pose proof (Z.log2_spec (N / lsd / 2) ltac:(lia)) as Hspec.
  replace (Z.succ (Z.log2 (N / lsd / 2))) with (Z.log2 (N / lsd / 2) + 1)%Z
    in Hspec by lia.
  assert (Hk1 : (1 <= Z.log2 (N / lsd / 2))%Z).
  { apply Z.log2_le_pow2; [lia|]. change (2 ^ 1)%Z with 2%Z. lia. }
  assert (Hns : (1 <= nscale)%Z) by (unfold nscale; nia).
  set (f := fun j : Z =>
              IZR N / (IZR lsd * Rpower 2 (IZR (nscale - 1 - j) / IZR notes))).
  exists (Cwt.fill (Np.zeros (Z.to_nat nscale)) nscale f).
  assert (Hlen : List.length (Cwt.fill (Np.zeros (Z.to_nat nscale)) nscale f)
                 = Z.to_nat nscale).
  { rewrite fill_length. unfold Np.zeros. apply repeat_length. }
  assert (Hnth : forall j, (0 <= j < nscale)%Z ->
            nth (Z.to_nat j) (Cwt.fill (Np.zeros (Z.to_nat nscale)) nscale f) 0 = f j).
  { intros j Hj. apply fill_nth; [exact Hj|].
    unfold Np.zeros. rewrite repeat_length. lia. }
  split; [|split; [|split; [|]]].
  - unfold Cwt._setscales. cbn [String.eqb Ascii.eqb Bool.eqb].
    destruct (Z.leb_spec notes 0) as [?|_]; [lia|].
    destruct (Z.eqb_spec lsd 0) as [?|_]; [lia|].
    rewrite log2_exact by (lia || exact Hfrac). reflexivity.
  - rewrite Hlen. lia.
  - exact Hnth.
  - assert (H0 : nth 0 (Cwt.fill (Np.zeros (Z.to_nat nscale)) nscale f) 0 = f 0%Z).
    { apply (Hnth 0%Z). lia. }
    rewrite H0. unfold f, nscale.
    pose proof (first_scale_bounds N lsd notes (Z.log2 (N / lsd / 2))
                  Hnotes Hlsd ltac:(lia) Hspec) as Hb.
    cbn zeta in Hb.
    pose proof (Rpower2_fraction notes Hnotes) as [Hr1 Hr2].
    split; [exact Hb|]. lra.
Qed.

(** A padded column of 1024 samples with the program's parameters. *)
Lemma C1_log_scales_witness :
  let nscale := (8 * Z.log2 (1024 / 3 / 2))%Z in
  exists scales,
    Cwt._setscales 1024 3 8 "log" = inr (nscale, scales) /\
    Z.of_nat (List.length scales) = nscale /\
    (forall j, (0 <= j < nscale)%Z ->
               nth (Z.to_nat j) scales 0 =
               IZR 1024 / (IZR 3 * Rpower 2 (IZR (nscale - 1 - j) / IZR 8))) /\
    2 * Rpower 2 (1 / IZR 8) <= nth 0 scales 0 < 4 * Rpower 2 (1 / IZR 8) /\
    2 < nth 0 scales 0 < 8.
Proof.
  apply (C1_log_scales 1024 3 8).
  - lia.
  - lia.
  - change (1024 / 3 / 2)%Z with 170%Z. lia.
  - left. change (1024 / 3 / 2)%Z with 170%Z. lia.
Defined.

(** C1, as the specification words it, fails.  For a signal of 32766
    samples, [largestscale = 1] and [notes = 1], the integer part of the
    base-2 logarithm of 32766/1/2 = 16383 is 13, and the program takes 14
    octaves: the margin 0.0001 added before truncation exceeds the distance
    of [log2 16383] from 14. *)
Lemma C1_counterexample :
  (2 <= 32766 / 1 / 2)%Z /\
  (2 ^ 13 <= 32766 / 1 / 2 < 2 ^ 14)%Z /\
  exists scales,
    Cwt._setscales 32766 1 1 "log" = inr (14%Z, scales) /\
    14%Z <> (1 * Z.log2 (32766 / 1 / 2))%Z.
Proof.
  change (32766 / 1 / 2)%Z with 16383%Z.
  split; [lia|]. split; [lia|].
  eexists. split.
  - unfold Cwt._setscales. cbn [String.eqb Ascii.eqb Bool.eqb].
    change (32766 / 1 / 2)%Z with 16383%Z.
    cbn [Z.leb Z.eqb Z.compare]. rewrite log2_16383. reflexivity.
  - discriminate.
Qed.

(** ** Zero padding *)

Lemma put_from_fold (v : list R) (m : nat) :
  forall (s : nat) (Y : list R),
    Np.put_from Y (map (fun i => (0 + Z.of_nat i)%Z) (seq s m)) v s =
    fold_left
      (fun a j => Np.setitem a (Z.to_nat j)
                    (nth (Nat.modulo (Z.to_nat j) (List.length v)) v 0))
      (map (fun i => (0 + Z.of_nat i)%Z) (seq s m)) Y.
Proof.
  induction m as [|m IH]; intros s Y; [reflexivity|].
  cbn [seq map Np.put_from fold_left]. rewrite IH.
  replace (Z.to_nat (0 + Z.of_nat s)) with s by lia. reflexivity.
Qed.

Lemma put_prefix (A : list R) (n : nat) :
  (List.length A <= n)%nat -> (0 < List.length A)%nat ->
  Np.put (Np.zeros n) (Py.range2 0 (Z.of_nat (List.length A))) A =
  A ++ Np.zeros (n - List.length A).
Proof.
  intros Hn Hpos. unfold Np.put. rewrite range2_seq, put_from_fold.
  replace (Z.to_nat (Z.of_nat (List.length A) - 0)) with (List.length A) by lia.
  destruct (fill_seq
              (fun j => nth (Nat.modulo (Z.to_nat j) (List.length A)) A 0)
              (List.length A) 0 (Np.zeros n)) as [Hlen Hnth].
  cbn zeta in Hlen, Hnth.
  assert (Hz : List.length (Np.zeros n) = n) by apply repeat_length.
  apply (nth_ext _ _ 0 0).
  - rewrite Hlen, length_app, Hz. unfold Np.zeros. rewrite repeat_length. lia.
  - intros j _. rewrite Hnth, Hz. cbn [Nat.leb andb Nat.add].
    destruct (Nat.ltb_spec j (List.length A)) as [Hj|Hj].
    + destruct (Nat.ltb_spec j n) as [_|?]; [|lia].
      cbn [andb]. rewrite Nat2Z.id, Nat.mod_small by exact Hj.
      now rewrite app_nth1.
    + cbn [andb]. rewrite app_nth2 by lia.
      unfold Np.zeros. now rewrite !nth_repeat.
Qed.

Lemma Int_part_lower (r : R) (k : Z) : IZR k <= r -> (k <= Int_part r)%Z.
Proof.
  intros Hk. destruct (base_Int_part r) as [_ Hgt].
  assert (IZR (k - 1) < IZR (Int_part r)) by (rewrite minus_IZR; lra).
  apply lt_IZR in H. lia.
Qed.

Lemma base2_lower (ny : Z) :
  (1 <= ny)%Z -> (Z.log2 ny <= Np.trunc (ln (IZR ny) / ln 2 + 0.4999))%Z.
Proof.
  intros Hny.
  pose proof (Z.log2_spec ny ltac:(lia)) as [Hlo _].
  pose proof (Z.log2_nonneg ny) as Hk0.
  pose proof ln2_pos as Hl2.
  assert (Hlow : IZR (Z.log2 ny) * ln 2 <= ln (IZR ny)).
  { rewrite <- ln_pow2 by lia. apply ln_le; [apply pow2_pos; lia|].
    now apply IZR_le. }
  assert (Hk : 0 <= IZR (Z.log2 ny)) by (apply IZR_le; lia).
  assert (Hq : IZR (Z.log2 ny) <= ln (IZR ny) / ln 2).
  { apply Rmult_le_reg_r with (ln 2); [exact Hl2|].
    replace (ln (IZR ny) / ln 2 * ln 2) with (ln (IZR ny)) by (field; lra).
    exact Hlow. }
  rewrite trunc_nonneg by lra.
  apply Int_part_lower. lra.
Qed.

(** C5, as the program behaves.  For a vector [A] of length [ny >= 1],
    [pad2nxtpow2(A, ny)] is [A] followed by zeros; its length is a power of
    two strictly greater than [ny]; cutting it back to its first [ny]
    entries gives [A] again. *)
Theorem C5_pad2nxtpow2 :
  forall (A : list R) (ny : Z),
    (1 <= ny)%Z -> Z.of_nat (List.length A) = ny ->
    exists e : Z,
      (0 <= e)%Z /\ (ny < 2 ^ e)%Z /\
      Z.of_nat (List.length (pad2nxtpow2 A ny)) = (2 ^ e)%Z /\
      pad2nxtpow2 A ny = A ++ Np.zeros (Z.to_nat (2 ^ e - ny)) /\
      firstn (Z.to_nat ny) (pad2nxtpow2 A ny) = A.
Proof.
  intros A ny Hny HA.
  pose proof (base2_lower ny Hny) as Hb.
  pose proof (Z.log2_spec ny ltac:(lia)) as [_ Hhi].
  pose proof (Z.log2_nonneg ny) as Hk0.
  set (base2 := Np.trunc (ln (IZR ny) / ln 2 + 0.4999)) in *.
  assert (Hpow : (ny < 2 ^ (base2 + 1))%Z).
  { eapply Z.lt_le_trans; [exact Hhi|]. apply Z.pow_le_mono_r; lia. }
  assert (Hpad : pad2nxtpow2 A ny = A ++ Np.zeros (Z.to_nat (2 ^ (base2 + 1) - ny))).
  { unfold pad2nxtpow2. fold base2. rewrite <- HA.
    rewrite put_prefix by lia. do 2 f_equal. lia. }
  exists (base2 + 1)%Z.
  split; [lia|]. split; [exact Hpow|]. split; [|split].
  - rewrite Hpad, length_app. unfold Np.zeros. rewrite repeat_length. lia.
  - exact Hpad.
  - rewrite Hpad. replace (Z.to_nat ny) with (List.length A + 0)%nat by lia.
    rewrite firstn_app_2. cbn [firstn]. apply app_nil_r.
Qed.

Lemma base2_3 : Np.trunc (ln 3 / ln 2 + 0.4999) = 2%Z.
Proof.
  pose proof ln2_pos as Hl2.
  assert (Hupp : ln 3 < 2 * ln 2).
  { replace (2 * ln 2) with (ln 4).
    - apply ln_increasing; lra.
    - change 4 with (IZR (2 ^ 2)). now rewrite ln_pow2 by lia. }
  assert (Hlow : 31 * ln 2 < 20 * ln 3).
  { assert (Hpow : ln (IZR (2 ^ 31)) < ln (IZR (3 ^ 20))).
    { apply ln_increasing; [apply pow2_pos; lia|]. apply IZR_lt. reflexivity. }
    rewrite ln_pow2 in Hpow by lia.
    change (3 ^ 20)%Z with (3 ^ Z.of_nat 20)%Z in Hpow.
    rewrite <- pow_IZR, ln_pow in Hpow by lra.
    change (INR 20) with (IZR (Z.of_nat 20)) in Hpow || rewrite INR_IZR_INZ in Hpow.
    exact Hpow. }
  apply trunc_floor.
  - lra.
  - apply Rplus_le_reg_r with (- 0.4999).
    replace (ln 3 / ln 2 + 0.4999 + - 0.4999) with (ln 3 / ln 2) by lra.
    apply Rmult_le_reg_r with (ln 2); [exact Hl2|].
    replace (ln 3 / ln 2 * ln 2) with (ln 3) by (field; lra).
    nra.
  - apply Rmult_lt_reg_r with (ln 2); [exact Hl2|].
    replace ((ln 3 / ln 2 + 0.4999) * ln 2) with (ln 3 + 0.4999 * ln 2)
      by (field; lra).
    nra.
Qed.

Lemma base2_4 : Np.trunc (ln 4 / ln 2 + 0.4999) = 2%Z.
Proof.
  pose proof ln2_pos as Hl2.
  assert (H4 : ln 4 = 2 * ln 2).
  { change 4 with (IZR (2 ^ 2)). now rewrite ln_pow2 by lia. }
  rewrite H4. replace (2 * ln 2 / ln 2) with 2 by (field; lra).
  apply trunc_floor; lra.
Qed.

(** The padded length [npad] that [processimage] computes for the smoothing
    of the same columns is 4 for a column of 3 samples. *)
Lemma npad_3 : npad 3 = 4%Z.
Proof.
  unfold npad. pose proof ln2_pos as Hl2.
  assert (Hlow : ln 2 < ln 3) by (apply ln_increasing; lra).
  assert (Hupp : 5 * ln 3 < 8 * ln 2).
  { assert (Hpow : ln (IZR (3 ^ 5)) < ln (IZR (2 ^ 8))).
    { apply ln_increasing; [|apply IZR_lt; reflexivity].
      apply IZR_lt. reflexivity. }
    rewrite ln_pow2 in Hpow by lia.
    change (3 ^ 5)%Z with (3 ^ Z.of_nat 5)%Z in Hpow.
    rewrite <- pow_IZR, ln_pow, INR_IZR_INZ in Hpow by lra.
    exact Hpow. }
  assert (Hq : 1 < ln 3 / ln 2 <= 8 / 5).
  { split.
    - apply Rmult_lt_reg_r with (ln 2); [exact Hl2|].
      replace (ln 3 / ln 2 * ln 2) with (ln 3) by (field; lra). lra.
    - apply Rmult_le_reg_r with (ln 2); [exact Hl2|].
      replace (ln 3 / ln 2 * ln 2) with (ln 3) by (field; lra). lra. }
  rewrite <- (Int_part_spec (- (ln 3 / ln 2 + 0.0001)) (-2)); [reflexivity|].
  lra.
Qed.

(** Three samples are padded to eight. *)
Lemma C5_pad2nxtpow2_witness :
  exists e : Z,
    (0 <= e)%Z /\ (3 < 2 ^ e)%Z /\
    Z.of_nat (List.length (pad2nxtpow2 [1; 2; 3] 3)) = (2 ^ e)%Z /\
    pad2nxtpow2 [1; 2; 3] 3 = [1; 2; 3] ++ Np.zeros (Z.to_nat (2 ^ e - 3)) /\
    firstn (Z.to_nat 3) (pad2nxtpow2 [1; 2; 3] 3) = [1; 2; 3].
Proof.
  apply (C5_pad2nxtpow2 [1; 2; 3] 3).
  - lia.
  - reflexivity.
Defined.

(** C5, as the specification words it, fails.  Three samples are padded to
    8 entries although 4 is a power of two that holds them, and four samples
    are padded to 8 entries as well. *)
Lemma C5_counterexample :
  pad2nxtpow2 [1; 2; 3] 3 = [1; 2; 3; 0; 0; 0; 0; 0] /\
  pad2nxtpow2 [1; 2; 3; 4] 4 = [1; 2; 3; 4; 0; 0; 0; 0] /\
  ~ (forall e : Z,
        (0 <= e)%Z -> (3 <= 2 ^ e)%Z ->
        (Z.of_nat (List.length (pad2nxtpow2 [1; 2; 3]%R 3)) <= 2 ^ e)%Z).
Proof.
  assert (H3 : pad2nxtpow2 [1; 2; 3] 3 = [1; 2; 3; 0; 0; 0; 0; 0]).
  { unfold pad2nxtpow2. rewrite base2_3. reflexivity. }
  assert (H4 : pad2nxtpow2 [1; 2; 3; 4] 4 = [1; 2; 3; 4; 0; 0; 0; 0]).
  { unfold pad2nxtpow2. rewrite base2_4. reflexivity. }
  split; [exact H3|]. split; [exact H4|].
  intros Hmin. specialize (Hmin 2%Z ltac:(lia) ltac:(lia)).
  rewrite H3 in Hmin. cbn in Hmin. lia.
Qed.

(** ** The wavelet coefficients *)

Lemma mask_seq (xs : list R) (m : nat) :
  forall (s : nat) (H : list R),
    let H' :=
      fold_left
        (fun H i => if Rlt_dec (nth (Z.to_nat i) xs 0) 0.0
                    then Np.setitem H (Z.to_nat i) 0.0 else H)
        (map (fun i => (0 + Z.of_nat i)%Z) (seq s m)) H in
    List.length H' = List.length H /\
    forall j,
      nth j H' 0 =
      if (s <=? j)%nat && (j <? s + m)%nat
         && (if Rlt_dec (nth j xs 0) 0 then true else false)
      then 0 else nth j H 0.
Proof.
  assert (H00 : 0.0 = 0) by lra.
  induction m as [|m IH]; intros s H; cbn zeta.
  - cbn [seq map fold_left]. split; [reflexivity|]. intros j.
    destruct (Nat.leb_spec s j); destruct (Nat.ltb_spec j (s + 0));
      cbn [andb]; try reflexivity; lia.
  - cbn [seq map fold_left].
    replace (Z.to_nat (0 + Z.of_nat s)) with s by lia.
    rewrite H00.
    destruct (Rlt_dec (nth s xs 0) 0) as [Hneg|Hpos].
    + destruct (IH (S s) (Np.setitem H s 0)) as [Hlen Hnth].
      cbn zeta in Hlen, Hnth. rewrite H00 in Hlen, Hnth.
      rewrite setitem_length in Hlen.
      split; [exact Hlen|]. intros j. rewrite Hnth.
      destruct (Nat.eq_dec j s) as [->|Hne].
      * destruct (Nat.leb_spec (S s) s); [lia|].
        destruct (Nat.leb_spec s s); [|lia].
        destruct (Nat.ltb_spec s (s + S m)); [|lia].
        destruct (Rlt_dec (nth s xs 0) 0); [|contradiction].
        cbn [andb].
        destruct (Nat.lt_ge_cases s (List.length H)) as [Hin|Hout].
        -- now rewrite setitem_nth_same.
        -- apply nth_overflow. rewrite setitem_length. lia.
      * rewrite setitem_nth_other by congruence.
        destruct (Nat.leb_spec (S s) j); destruct (Nat.ltb_spec j (S s + m));
          destruct (Nat.leb_spec s j); destruct (Nat.ltb_spec j (s + S m));
          cbn [andb]; try reflexivity; lia.
    + destruct (IH (S s) H) as [Hlen Hnth].
      cbn zeta in Hlen, Hnth. rewrite H00 in Hlen, Hnth.
      split; [exact Hlen|]. intros j. rewrite Hnth.
      destruct (Nat.eq_dec j s) as [->|Hne].
      * destruct (Nat.leb_spec (S s) s); [lia|].
        destruct (Rlt_dec (nth s xs 0) 0); [contradiction|].
        cbn [andb]. now rewrite !andb_false_r.
      * destruct (Nat.leb_spec (S s) j); destruct (Nat.ltb_spec j (S s + m));
          destruct (Nat.leb_spec s j); destruct (Nat.ltb_spec j (s + S m));
          cbn [andb]; try reflexivity; lia.
Qed.

Lemma mul_nth (a : list R) :
  forall (b : list R) (n : nat),
    List.length a = List.length b ->
    nth n (Np.mul a b) 0 = nth n a 0 * nth n b 0.
Proof.
  unfold Np.mul.
  induction a as [|x a IH]; intros [|y b] n Hlen; try discriminate.
  - destruct n; cbn; ring.
  - destruct n as [|n]; cbn [combine map nth fst snd]; [reflexivity|].
    apply IH. cbn in Hlen. congruence.
Qed.

Lemma mul_length (a b : list R) :
  List.length a = List.length b -> List.length (Np.mul a b) = List.length a.
Proof.
  intros Hlen. unfold Np.mul. rewrite length_map, length_combine. lia.
Qed.

Lemma wf_spec (s_omega : list R) : Morlet.wf s_omega = map spec_psi s_omega.
Proof.
  unfold Morlet.wf. rewrite range2_seq.
  replace (Z.to_nat (Z.of_nat (List.length s_omega) - 0))
    with (List.length s_omega) by lia.
  destruct (mask_seq s_omega (List.length s_omega) 0
              (repeat 1 (List.length s_omega))) as [Hlen Hnth].
  cbn zeta in Hlen, Hnth. rewrite repeat_length in Hlen.
  set (H := fold_left _ _ _) in *.
  set (g := fun x : R => 0.75112554 * exp (- (x - Morlet._omega0) ^ 2 / 2.0)).
  assert (Hg : List.length (map g s_omega) = List.length H)
    by (now rewrite length_map, Hlen).
  apply (nth_ext _ _ 0 (spec_psi 0)).
  - rewrite mul_length by exact Hg. now rewrite !length_map.
  - intros n Hn. rewrite mul_length, length_map in Hn by exact Hg.
    rewrite mul_nth by exact Hg. rewrite map_nth.
    rewrite (nth_indep _ 0 (g 0)) by (now rewrite length_map).
    rewrite map_nth, Hnth.
    destruct (Nat.ltb_spec n (0 + List.length s_omega)) as [_|?]; [|lia].
    cbn [Nat.leb andb]. unfold spec_psi, g, Morlet._omega0.
    destruct (Rlt_dec (nth n s_omega 0) 0) as [Hneg|Hpos].
    + ring.
    + rewrite (nth_indep (repeat 1 (List.length s_omega)) 0 1)
        by (now rewrite repeat_length).
      rewrite nth_repeat. replace 2.0 with 2 by lra. ring.
Qed.

(** One frequency bin per sample. *)
Lemma bins_length (N : Z) :
  (0 <= N)%Z ->
  Z.of_nat (List.length (Py.range2 0 (N / 2) ++ Py.range2 (- N / 2) 0)) = N.
Proof.
  intros HN.
  rewrite length_app, !range2_seq, !length_map, !length_seq.
  pose proof (Z.div_mod N 2 ltac:(lia)) as Hdm.
  pose proof (Z.mod_pos_bound N 2 ltac:(lia)) as Hm.
  pose proof (Z.div_mod (- N) 2 ltac:(lia)) as Hdm'.
  pose proof (Z.mod_pos_bound (- N) 2 ltac:(lia)) as Hm'.
  lia.
Qed.

(** The frequencies exist as soon as there is a sample. *)
Lemma omega_unfold (N : Z) :
  (1 <= N)%Z ->
  Cwt.omega N =
  inr (map (fun k => IZR k * (2 * PI / IZR N))
           (Py.range2 0 (N / 2) ++ Py.range2 (- N / 2) 0)).
Proof.
  intros HN. unfold Cwt.omega.
  destruct (Z.eqb_spec N 0) as [?|_]; [lia|]. reflexivity.
Qed.

Lemma omega_success (N : Z) (omega : list R) :
  (0 <= N)%Z -> Cwt.omega N = inr omega ->
  (1 <= N)%Z /\
  omega = map (fun k => IZR k * (2 * PI / IZR N))
              (Py.range2 0 (N / 2) ++ Py.range2 (- N / 2) 0).
Proof.
  intros HN. unfold Cwt.omega.
  destruct (Z.eqb_spec N 0) as [?|Hne]; [discriminate|].
  intros H. injection H as <-. split; [lia|reflexivity].
Qed.

Lemma omega_length (N : Z) (omega : list R) :
  (0 <= N)%Z -> Cwt.omega N = inr omega -> Z.of_nat (List.length omega) = N.
Proof.
  intros HN Hom. destruct (omega_success N omega HN Hom) as [_ ->].
  rewrite length_map. now apply bins_length.
Qed.

(** C2.  After [Morlet(data, ...)], the row of index [j] of the coefficient
    matrix, for the scale [s] of index [j], is the inverse discrete Fourier
    transform of [sqrt(2 pi s) * psi(omega s) * fft(data)], where [omega]
    lists [k * 2 pi / N] for [k] in [range(0, N/2)] followed by
    [range(-N/2, 0)] (one bin per sample) and [psi(x)] is 0 for [x < 0] and
    [0.75112554 * exp(-(x - 6.0)^2 / 2)] otherwise. *)
Theorem C2_cwt_coefficients :
  forall (data : list R) (largestscale notes : Z) (scaling : string) (cw : Cwt.t),
    Morlet.init data largestscale notes scaling = inr cw ->
    forall j : Z,
      (0 <= j < Cwt.nscale cw)%Z ->
      let N := Z.of_nat (List.length data) in
      let s := nth (Z.to_nat j) (Cwt.scales cw) 0 in
      let omega :=
        map (fun k => IZR k * (2 * PI / IZR N))
            (Py.range2 0 (N / 2) ++ Py.range2 (- N / 2) 0) in
      List.length omega = List.length data /\
      nth (Z.to_nat j) (Cwt.cwt cw) [] =
      Cx.ifft (Cx.rmul (map (fun w => sqrt (2 * PI * s) * spec_psi (w * s)) omega)
                       (Cx.fft (map Cx.of_real data))).
Proof.
  intros data largestscale notes scaling cw Hinit j Hj N s omega.
  split.
  - pose proof (bins_length N ltac:(lia)) as Hlen.
    unfold omega. rewrite length_map. lia.
  - unfold Morlet.init, Cwt.init in Hinit. fold N in Hinit.
    destruct (Cwt._setscales N largestscale notes scaling) as [e|[ns sc]];
      [discriminate|].
    cbn [Py.bind Py.ret fst snd] in Hinit.
    destruct (Cwt.omega N) as [e|om] eqn:Hom; [discriminate|].
    destruct (omega_success N om ltac:(lia) Hom) as [_ Heq].
    fold omega in Heq. subst om.
    cbn [Py.bind Py.ret] in Hinit.
    injection Hinit as <-. cbn [Cwt.cwt Cwt.scales Cwt.nscale] in *.
    rewrite fill_nth; [|exact Hj|rewrite repeat_length; lia].
    unfold Cwt.coefficients.
    rewrite wf_spec. unfold Np.mul_scalar. rewrite !map_map.
    do 2 f_equal. apply map_ext. intros w. subst s. ring.
Qed.

(** An impulse of eight samples, linear scales 2 and 3. *)
Lemma C2_cwt_coefficients_witness :
  exists cw : Cwt.t,
    Morlet.init [1; 0; 0; 0; 0; 0; 0; 0] 1 0 "linear" = inr cw /\
    let N := Z.of_nat (List.length [1; 0; 0; 0; 0; 0; 0; 0]) in
    let s := nth (Z.to_nat 1) (Cwt.scales cw) 0 in
    let omega :=
      map (fun k => IZR k * (2 * PI / IZR N))
          (Py.range2 0 (N / 2) ++ Py.range2 (- N / 2) 0) in
    List.length omega = List.length [1; 0; 0; 0; 0; 0; 0; 0] /\
    nth (Z.to_nat 1) (Cwt.cwt cw) [] =
    Cx.ifft (Cx.rmul (map (fun w => sqrt (2 * PI * s) * spec_psi (w * s)) omega)
                     (Cx.fft (map Cx.of_real [1; 0; 0; 0; 0; 0; 0; 0]))).
Proof.
  eexists. split; [reflexivity|].
  apply (C2_cwt_coefficients [1; 0; 0; 0; 0; 0; 0; 0] 1 0 "linear" _ eq_refl 1).
  vm_compute. split; [discriminate|reflexivity].
Defined.

(** ** A column of 17 pixels *)

(** The scale 16/3, which the threshold [ny / 3] meets when [ny = 17], is a
    scale of the program's own transform: a column of 17 samples is padded
    to 32, and the transform of 32 samples with [maxscale = 3] and
    [notes = 8] has 16 scales, the one of index 7 being 32 / (3 * 2). *)

Lemma base2_17 : Np.trunc (ln 17 / ln 2 + 0.4999) = 4%Z.
Proof.
  pose proof ln2_pos as Hl2.
  assert (Hlow : 4 * ln 2 < ln 17).
  { replace (4 * ln 2) with (ln 16).
    - apply ln_increasing; lra.
    - change 16 with (IZR (2 ^ 4)). now rewrite ln_pow2 by lia. }
  assert (Hupp : 2 * ln 17 < 9 * ln 2).
  { assert (Hpow : ln (17 * 17) < ln (IZR (2 ^ 9))).
    { apply ln_increasing; [lra|]. change (IZR (2 ^ 9)) with 512. lra. }
    rewrite ln_mult, ln_pow2 in Hpow by (lra || lia). lra. }
  apply trunc_floor.
  - lra.
  - apply Rplus_le_reg_r with (- 0.4999).
    replace (ln 17 / ln 2 + 0.4999 + - 0.4999) with (ln 17 / ln 2) by lra.
    apply Rmult_le_reg_r with (ln 2); [exact Hl2|].
    replace (ln 17 / ln 2 * ln 2) with (ln 17) by (field; lra).
    nra.
  - apply Rmult_lt_reg_r with (ln 2); [exact Hl2|].
    replace ((ln 17 / ln 2 + 0.4999) * ln 2) with (ln 17 + 0.4999 * ln 2)
      by (field; lra).
    nra.
Qed.

Lemma pad_17_pixels (A : list R) :
  List.length A = 17%nat -> List.length (pad2nxtpow2 A 17) = 32%nat.
Proof.
  intros HA. unfold pad2nxtpow2. rewrite base2_17.
  change (Z.to_nat (17 + (2 ^ (4 + 1) - 17))) with 32%nat.
  change 17%Z with (Z.of_nat 17). rewrite <- HA.
  rewrite put_prefix by lia.
  rewrite length_app. unfold Np.zeros. rewrite repeat_length. lia.
Qed.

Lemma scale_of_17_pixels :
  exists scales,
    Cwt._setscales 32 3 8 "log" = inr (16%Z, scales) /\
    nth 7 scales 0 = 16 / 3.
Proof.
  eexists. split.
  - unfold Cwt._setscales. cbn [String.eqb Ascii.eqb Bool.eqb].
    change (32 / 3 / 2)%Z with 5%Z. cbn [Z.leb Z.eqb Z.compare].
    rewrite (log2_exact 5) by (change (Z.log2 5) with 2%Z; lia).
    reflexivity.
  - change 7%nat with (Z.to_nat 7). rewrite fill_nth.
    + change (IZR (8 * Z.log2 5 - 1 - 7)) with 8.
      replace (8 / 8) with 1 by lra. rewrite Rpower_1 by lra. lra.
    + change (Z.log2 5) with 2%Z. lia.
    + unfold Np.zeros. rewrite repeat_length.
      change (Z.log2 5) with 2%Z. lia.
Qed.

(** * Further properties of the program *)

(** ** The window of the trend filter *)

Lemma isodd_odd (n : Z) : isodd n = Z.odd n.
Proof.
  unfold isodd, iseven. rewrite <- Z.negb_even. f_equal.
  rewrite Zeven_mod. reflexivity.
Qed.

Lemma window_size_odd (mn : Z) : isodd (window_size mn) = true.
Proof.
  unfold window_size. destruct (isodd (mn / 4)) eqn:E; [exact E|].
  rewrite isodd_odd in *. rewrite Z.odd_sub. rewrite E. reflexivity.
Qed.

Lemma window_size_small (mn : Z) :
  (0 <= mn < 20)%Z -> (-1 <= window_size mn <= 3)%Z.
Proof.
  intros Hmn. unfold window_size.
  assert (0 <= mn / 4 < 5)%Z.
  { split; [apply Z.div_pos; lia|apply Z.div_lt_upper_bound; lia]. }
  destruct (isodd (mn / 4)) eqn:E; [|lia].
  rewrite isodd_odd in E.
  assert (mn / 4 <> 4)%Z by (intros Heq; rewrite Heq in E; discriminate).
  lia.
Qed.

Lemma window_size_large (mn : Z) : (20 <= mn)%Z -> (5 <= window_size mn)%Z.
Proof.
  intros Hmn. unfold window_size.
  assert (5 <= mn / 4)%Z by (apply Z.div_le_lower_bound; lia).
  destruct (isodd (mn / 4)) eqn:E; [lia|].
  rewrite isodd_odd in E.
  assert (mn / 4 <> 5)%Z by (intros Heq; rewrite Heq in E; discriminate).
  lia.
Qed.

(** X1. The window [processimage] derives from the smaller side [mn] of the
    image is always odd.  For an image whose smaller side is below 20 the
    filter rejects it (the order 3 needs a window of 5) and the image is
    analysed as it is; from 20 on the guards of the filter pass, the grid
    of the window is built and the top band fits, so that the outcome of
    the filter is that of the rest of its body. *)
Theorem X1_trend_filter_window :
  forall (filter_rest : list (list R) -> Z -> Z -> Py.result (list (list R)))
         (region : list (list R)),
    let mn := Z.min (fst (shape region)) (snd (shape region)) in
    isodd (window_size mn) = true /\
    ((mn < 20)%Z -> useregion filter_rest region = region) /\
    ((20 <= mn)%Z ->
     sgolay2d filter_rest region (window_size mn) 3 =
     filter_rest region (window_size mn) 3%Z).
Proof.
  intros filter_rest region mn.
  assert (Hmn0 : (0 <= mn)%Z) by (unfold mn, shape; cbn [fst snd]; lia).
  pose proof (window_size_odd mn) as Hodd.
  assert (HoddZ : Z.odd (window_size mn) = true) by (now rewrite <- isodd_odd).
  split; [exact Hodd|]. split.
  - intros Hsmall. unfold useregion. fold mn.
    unfold sgolay2d. rewrite guards_spec.
    rewrite <- Z.negb_odd, HoddZ. cbn [negb].
    pose proof (window_size_small mn ltac:(lia)) as HW.
    change ((3 + 1) * (3 + 2) / 2)%Z with 10%Z.
    destruct (Z.ltb_spec (window_size mn * window_size mn) 10) as [_|?]; [|nia].
    reflexivity.
  - intros Hlarge.
    pose proof (window_size_large mn Hlarge) as HW.
    assert (Hle : (window_size mn <= mn / 4)%Z)
      by (unfold window_size; destruct (isodd (mn / 4)); lia).
    apply sgolay2d_passes.
    + exact HoddZ.
    + change ((3 + 1) * (3 + 2) / 2)%Z with 10%Z. nia.
    + lia.
    + assert (mn <= fst (shape region))%Z by (unfold mn; lia).
      Z.div_mod_to_equations. lia.
Qed.

(** ** Rescaling *)

Lemma fold_min_spec (l : list R) :
  forall x,
    In (fold_left Rmin l x) (x :: l) /\
    forall y, In y (x :: l) -> fold_left Rmin l x <= y.
Proof.
  induction l as [|a l IH]; intros x; cbn [fold_left].
  - split; [now left|]. intros y [<-|[]]. lra.
  - destruct (IH (Rmin x a)) as [Hin Hle]. split.
    + destruct Hin as [Heq|Hin]; [|now right; right].
      rewrite <- Heq. unfold Rmin. destruct (Rle_dec x a); [now left|now right; left].
    + intros y Hy.
      assert (Hm : fold_left Rmin l (Rmin x a) <= Rmin x a) by (apply Hle; now left).
      destruct Hy as [<-|[<-|Hy]].
      * pose proof (Rmin_l x a). lra.
      * pose proof (Rmin_r x a). lra.
      * apply Hle. now right.
Qed.

Lemma fold_max_spec (l : list R) :
  forall x,
    In (fold_left Rmax l x) (x :: l) /\
    forall y, In y (x :: l) -> y <= fold_left Rmax l x.
Proof.
  induction l as [|a l IH]; intros x; cbn [fold_left].
  - split; [now left|]. intros y [<-|[]]. lra.
  - destruct (IH (Rmax x a)) as [Hin Hle]. split.
    + destruct Hin as [Heq|Hin]; [|now right; right].
      rewrite <- Heq. unfold Rmax. destruct (Rle_dec x a); [now right; left|now left].
    + intros y Hy.
      assert (Hm : Rmax x a <= fold_left Rmax l (Rmax x a)) by (apply Hle; now left).
      destruct Hy as [<-|[<-|Hy]].
      * pose proof (Rmax_l x a). lra.
      * pose proof (Rmax_r x a). lra.
      * apply Hle. now right.
Qed.

Lemma flatten_map (f : R -> R) (dat : list (list R)) :
  Np.flatten (map (map f) dat) = map f (Np.flatten dat).
Proof.
  unfold Np.flatten. symmetry. apply concat_map.
Qed.

(** X2. [rescale] maps an array that is not constant onto the range from
    [mn] to [mx] (for [mn <= mx]): every entry of the result lies in the
    range, both ends are attained, and the shape is kept. *)
Theorem X2_rescale_range :
  forall (dat : list (list R)) (mn mx a b : R),
    In a (Np.flatten dat) -> In b (Np.flatten dat) -> a < b -> mn <= mx ->
    exists out,
      rescale dat mn mx = inr out /\
      map (@List.length R) out = map (@List.length R) dat /\
      (forall v, In v (Np.flatten out) -> mn <= v <= mx) /\
      In mn (Np.flatten out) /\ In mx (Np.flatten out).
Proof.
  intros dat mn mx a b Ha Hb Hab Hrange.
  unfold rescale, py_min, py_max.
  destruct (Np.flatten dat) as [|x l] eqn:Hflat; [destruct Ha|].
  cbn [Py.bind Py.ret].
  destruct (fold_min_spec l x) as [Hmin_in Hmin].
  destruct (fold_max_spec l x) as [Hmax_in Hmax].
  set (m := fold_left Rmin l x) in *. set (M := fold_left Rmax l x) in *.
  assert (HmM : m < M).
  { pose proof (Hmin a Ha). pose proof (Hmax b Hb). lra. }
  set (f := fun x0 : R => (mx - mn) * (x0 - m) / (M - m) + mn).
  exists (map (map f) dat).
  split; [reflexivity|]. split.
  - rewrite map_map. apply map_ext. intros row. apply length_map.
  - rewrite flatten_map, Hflat. split; [|split].
    + intros v Hv. apply in_map_iff in Hv. destruct Hv as [y [<- Hy]].
      pose proof (Hmin y Hy). pose proof (Hmax y Hy).
      unfold f.
      replace ((mx - mn) * (y - m) / (M - m)) with ((mx - mn) * ((y - m) / (M - m)))
        by (unfold Rdiv; ring).
      assert (Ht : 0 <= (y - m) / (M - m) <= 1).
      { split.
        - apply Rmult_le_reg_r with (M - m); [lra|].
          replace ((y - m) / (M - m) * (M - m)) with (y - m) by (field; lra). lra.
        - apply Rmult_le_reg_r with (M - m); [lra|].
          replace ((y - m) / (M - m) * (M - m)) with (y - m) by (field; lra). lra. }
      set (t := (y - m) / (M - m)) in *. nra.
    + apply in_map_iff. exists m. split; [|exact Hmin_in].
      unfold f. field. lra.
    + apply in_map_iff. exists M. split; [|exact Hmax_in].
      unfold f. field. lra.
Qed.

(** An image with the intensities 10 and 30, stretched to 0..255. *)
Lemma X2_rescale_range_witness :
  exists out,
    rescale [[10; 30]] 0 255 = inr out /\
    map (@List.length R) out = map (@List.length R) [[10; 30]] /\
    (forall v, In v (Np.flatten out) -> 0 <= v <= 255) /\
    In 0 (Np.flatten out) /\ In 255 (Np.flatten out).
Proof.
  apply (X2_rescale_range [[10; 30]] 0 255 10 30).
  - simpl. tauto.
  - simpl. tauto.
  - lra.
  - lra.
Defined.

(** ** The central crop *)

(** X3. For an image of width [w] and height [h], the box of [cropcentral]
    is a square of side [min(w, h)] that lies inside the image and touches
    the two borders along the shorter side; along the longer side the two
    margins differ by at most one pixel. *)
Theorem X3_cropcentral_box :
  forall w h : Z,
    (0 <= w)%Z -> (0 <= h)%Z ->
    let box := cropBox (w, h) in
    let left := fst (fst (fst box)) in
    let upper := snd (fst (fst box)) in
    let right := snd (fst box) in
    let lower := snd box in
    (0 <= left /\ right <= w /\ 0 <= upper /\ lower <= h)%Z /\
    (right - left = Z.min w h /\ lower - upper = Z.min w h)%Z /\
    (left = 0 \/ upper = 0)%Z /\
    (-1 <= left - (w - right) <= 1)%Z /\
    (-1 <= upper - (h - lower) <= 1)%Z.
Proof.
  intros w h Hw Hh. unfold cropBox. cbn [fst snd].
  destruct (Z.min_spec w h) as [[Hlt ->]|[Hle ->]];
    Z.div_mod_to_equations; lia.
Qed.

(** A landscape image of 7 x 4 pixels. *)
Lemma X3_cropcentral_box_witness :
  let box := cropBox (7, 4)%Z in
  let left := fst (fst (fst box)) in
  let upper := snd (fst (fst box)) in
  let right := snd (fst box) in
  let lower := snd box in
  (0 <= left /\ right <= 7 /\ 0 <= upper /\ lower <= 4)%Z /\
  (right - left = Z.min 7 4 /\ lower - upper = Z.min 7 4)%Z /\
  (left = 0 \/ upper = 0)%Z /\
  (-1 <= left - (7 - right) <= 1)%Z /\
  (-1 <= upper - (4 - lower) <= 1)%Z.
Proof.
  apply (X3_cropcentral_box 7 4); lia.
Defined.

(** ** The integer logarithm *)




(** ** Scaling modes of the transform *)

(** The outcomes of [Morlet(data, largestscale, notes, scaling)], case by
    case. *)
Lemma init_outcome (data : list R) (largestscale notes : Z) (scaling : string) :
  let x := (Z.of_nat (List.length data) / largestscale / 2)%Z in
  let r := Morlet.init data largestscale notes scaling in
  (scaling <> "log"%string /\ scaling <> "linear"%string /\
   r = inl (Py.ValueError "scaling must be linear or log")) \/
  ((scaling = "log"%string \/ scaling = "linear"%string) /\
   largestscale = 0%Z /\ r = inl Py.ZeroDivisionError) \/
  (scaling = "log"%string /\ largestscale <> 0%Z /\ x = 0%Z /\
   r = inl Py.OverflowError) \/
  (scaling = "log"%string /\ largestscale <> 0%Z /\ (x < 0)%Z /\
   r = inl (Py.ValueError "cannot convert float NaN to integer")) \/
  (scaling = "log"%string /\ largestscale <> 0%Z /\ (1 <= x)%Z /\
   exists cw, r = inr cw) \/
  (scaling = "linear"%string /\ largestscale <> 0%Z /\ data = [] /\
   r = inl Py.ZeroDivisionError) \/
  (scaling = "linear"%string /\ largestscale <> 0%Z /\ data <> [] /\
   exists cw, r = inr cw).
Proof.
  intros x r. subst r. unfold Morlet.init, Cwt.init, Cwt._setscales.
  set (N := Z.of_nat (List.length data)) in *.
  destruct (String.eqb_spec scaling "log") as [Hlog|Hlog].
  - destruct (Z.eqb_spec largestscale 0) as [H0|H0].
    + right. left. split; [now left|]. split; [exact H0|reflexivity].
    + fold x. unfold Cwt._log2.
      destruct (Z.eqb_spec x 0) as [Hx0|Hx0].
      * right. right. left. repeat split; assumption || reflexivity.
      * destruct (Z.ltb_spec x 0) as [Hneg|Hpos].
        -- right. right. right. left. repeat split; assumption || reflexivity.
        -- right. right. right. right. left.
           split; [exact Hlog|]. split; [exact H0|]. split; [lia|].
           assert (HN : (1 <= N)%Z).
           { assert (N <> 0%Z); [|unfold N in *; lia].
             intros HN0. apply Hx0. unfold x. rewrite HN0.
             now rewrite !Zdiv_0_l. }
           cbn [Py.bind Py.ret fst snd]. rewrite (omega_unfold N HN).
           cbn [Py.bind]. eexists. reflexivity.
  - destruct (String.eqb_spec scaling "linear") as [Hlin|Hlin].
    + destruct (Z.eqb_spec largestscale 0) as [H0|H0].
      * right. left. split; [now right|]. split; [exact H0|reflexivity].
      * cbn [Py.bind Py.ret fst snd]. unfold Cwt.omega.
        destruct (Z.eqb_spec N 0) as [HN0|HN0].
        -- do 5 right. left. repeat split; try assumption; try reflexivity.
           destruct data; [reflexivity|]. unfold N in HN0. cbn in HN0. lia.
        -- do 6 right. repeat split; try assumption.
           ++ intros ->. apply HN0. reflexivity.
           ++ cbn [Py.bind]. eexists. reflexivity.
    + left. repeat split; assumption || reflexivity.
Qed.

(** X5. [Morlet(data, ...)] raises the [ValueError] "scaling must be linear
    or log" exactly when the scaling is neither "log" nor "linear";
    [ZeroDivisionError] exactly when the scaling is one of the two and
    [largestscale] is 0, or the scaling is "linear" and there is no sample;
    in "log" mode with [largestscale] not 0, [OverflowError] exactly when
    [x = N / largestscale / 2] is 0 and the [ValueError] of a conversion of
    a float that is not a number exactly when [x] is negative.  In every
    other case it returns an instance. *)
Theorem X5_init_errors :
  forall (data : list R) (largestscale notes : Z) (scaling : string),
    let x := (Z.of_nat (List.length data) / largestscale / 2)%Z in
    (Morlet.init data largestscale notes scaling =
     inl (Py.ValueError "scaling must be linear or log") <->
     scaling <> "log"%string /\ scaling <> "linear"%string) /\
    (Morlet.init data largestscale notes scaling = inl Py.ZeroDivisionError <->
     ((scaling = "log"%string \/ scaling = "linear"%string) /\ largestscale = 0%Z) \/
     (scaling = "linear"%string /\ data = [])) /\
    (Morlet.init data largestscale notes scaling = inl Py.OverflowError <->
     scaling = "log"%string /\ largestscale <> 0%Z /\ x = 0%Z) /\
    (Morlet.init data largestscale notes scaling =
     inl (Py.ValueError "cannot convert float NaN to integer") <->
     scaling = "log"%string /\ largestscale <> 0%Z /\ (x < 0)%Z) /\
    ((exists cw, Morlet.init data largestscale notes scaling = inr cw) <->
     (scaling = "log"%string /\ largestscale <> 0%Z /\ (1 <= x)%Z) \/
     (scaling = "linear"%string /\ largestscale <> 0%Z /\ data <> [])).
Proof.
  intros data largestscale notes scaling x.
  pose proof (init_outcome data largestscale notes scaling) as Hcases.
  cbn zeta in Hcases. fold x in Hcases.
  assert (Hne : "log"%string <> "linear"%string) by discriminate.
  destruct Hcases
    as [[Hlog [Hlin ->]]
       |[[Hsc [H0 ->]]
        |[[Hlog [H0 [Hx ->]]]
         |[[Hlog [H0 [Hx ->]]]
          |[[Hlog [H0 [Hx [cw ->]]]]
           |[[Hlin [H0 [Hd ->]]]
            |[Hlin [H0 [Hd [cw ->]]]]]]]]]];
    (split; [|split; [|split; [|split]]]); (split; intros H);
    try discriminate H;
    try (match type of H with ex _ => destruct H as [? H'] end; discriminate H');
    try (exists cw; reflexivity);
    try reflexivity;
    try (exfalso; intuition (congruence || lia));
    intuition (congruence || lia).
Qed.

Lemma nth_map_lt {A B} (f : A -> B) (l : list A) (j : nat) (d : B) (d' : A) :
  (j < List.length l)%nat -> nth j (map f l) d = f (nth j l d').
Proof.
  intros Hj. rewrite (nth_indep _ d (f d')) by (now rewrite length_map).
  apply map_nth.
Qed.

Lemma range2_nth (start stop : Z) (j : nat) :
  (j < Z.to_nat (stop - start))%nat ->
  nth j (Py.range2 start stop) 0%Z = (start + Z.of_nat j)%Z.
Proof.
  intros Hj. rewrite range2_seq.
  rewrite (nth_map_lt _ _ _ _ O) by (now rewrite length_seq).
  now rewrite seq_nth.
Qed.

(** X6. In "linear" mode, with [nmax = N / largestscale / 2] (integer
    divisions), the scales are the integers from 2 up to [nmax - 1]: there
    are [nmax - 2] of them (none when [nmax <= 2]), the scale of index [j]
    is [2 + j], and [notes] plays no part. *)
Theorem X6_linear_scales :
  forall N largestscale notes : Z,
    largestscale <> 0%Z ->
    exists scales,
      Cwt._setscales N largestscale notes "linear" =
      inr (Z.max 0 (N / largestscale / 2 - 2), scales) /\
      Z.of_nat (List.length scales) = Z.max 0 (N / largestscale / 2 - 2) /\
      forall j : Z,
        (0 <= j < N / largestscale / 2 - 2)%Z ->
        nth (Z.to_nat j) scales 0 = IZR (2 + j).
Proof.
  intros N largestscale notes Hlsd.
  exists (map IZR (Py.range2 2 (N / largestscale / 2))).
  assert (Hlen : Z.of_nat (List.length (map IZR (Py.range2 2 (N / largestscale / 2))))
                 = Z.max 0 (N / largestscale / 2 - 2)).
  { rewrite length_map, range2_length. lia. }
  split; [|split].
  - unfold Cwt._setscales. cbn [String.eqb Ascii.eqb Bool.eqb].
    destruct (Z.eqb_spec largestscale 0) as [?|_]; [contradiction|].
    rewrite Hlen. reflexivity.
  - exact Hlen.
  - intros j Hj.
    rewrite (nth_map_lt _ _ _ _ 0%Z) by (rewrite range2_length; lia).
    rewrite range2_nth by lia. f_equal. lia.
Qed.

(** A signal of 16 samples: the scales 2 to 7. *)
Lemma X6_linear_scales_witness :
  exists scales,
    Cwt._setscales 16 1 0 "linear" = inr (Z.max 0 (16 / 1 / 2 - 2), scales) /\
    Z.of_nat (List.length scales) = Z.max 0 (16 / 1 / 2 - 2) /\
    forall j : Z,
      (0 <= j < 16 / 1 / 2 - 2)%Z -> nth (Z.to_nat j) scales 0 = IZR (2 + j).
Proof.
  apply (X6_linear_scales 16 1 0). lia.
Defined.

(** ** The coefficient matrix *)

Lemma wf_length (s_omega : list R) :
  List.length (Morlet.wf s_omega) = List.length s_omega.
Proof. now rewrite wf_spec, length_map. Qed.

Lemma coefficients_length (omega : list R) (datahat : list C) (s : R) :
  List.length (Cwt.coefficients Morlet.wf omega datahat s) =
  Nat.min (List.length omega) (List.length datahat).
Proof.
  unfold Cwt.coefficients, Cx.ifft, Cx.rmul, Np.mul_scalar.
  rewrite length_map, length_seq, length_map, length_combine.
  now rewrite length_map, wf_length, length_map.
Qed.

Lemma fft_length (x : list C) : List.length (Cx.fft x) = List.length x.
Proof. unfold Cx.fft. now rewrite length_map, length_seq. Qed.

Lemma setscales_length (N largestscale notes : Z) (scaling : string)
      (nscale : Z) (scales : list R) :
  Cwt._setscales N largestscale notes scaling = inr (nscale, scales) ->
  List.length scales = Z.to_nat nscale.
Proof.
  unfold Cwt._setscales.
  destruct (String.eqb scaling "log").
  - destruct (largestscale =? 0)%Z; [discriminate|].
    destruct (Cwt._log2 (N / largestscale / 2)) as [e|noctave]; [discriminate|].
    cbn [Py.bind Py.ret]. intros H. injection H as <- <-.
    rewrite fill_length. unfold Np.zeros. apply repeat_length.
  - destruct (String.eqb scaling "linear"); [|discriminate].
    destruct (largestscale =? 0)%Z; [discriminate|].
    intros H. injection H as <- <-. lia.
Qed.

Lemma init_unfold (data : list R) (largestscale notes : Z) (scaling : string)
      (cw : Cwt.t) :
  Morlet.init data largestscale notes scaling = inr cw ->
  exists ns sc omega,
    Cwt._setscales (Z.of_nat (List.length data)) largestscale notes scaling
    = inr (ns, sc) /\
    Cwt.omega (Z.of_nat (List.length data)) = inr omega /\
    cw = Cwt.mk ns sc (Cx.fft (map Cx.of_real data))
           (Cwt.fill (repeat (repeat Cx.zero (Z.to_nat (Z.of_nat (List.length data))))
                             (Z.to_nat ns)) ns
              (fun scaleindex =>
                 Cwt.coefficients Morlet.wf omega
                   (Cx.fft (map Cx.of_real data))
                   (nth (Z.to_nat scaleindex) sc 0))).
Proof.
  intros Hinit. unfold Morlet.init, Cwt.init in Hinit.
  destruct (Cwt._setscales (Z.of_nat (List.length data)) largestscale notes scaling)
    as [e|[ns sc]]; [discriminate|].
  cbn [Py.bind Py.ret fst snd] in Hinit.
  destruct (Cwt.omega (Z.of_nat (List.length data))) as [e|omega];
    [discriminate|].
  cbn [Py.bind Py.ret] in Hinit. injection Hinit as <-.
  exists ns, sc, omega. repeat split; reflexivity.
Qed.

(** X7. When [Morlet(data, ...)] succeeds, there are as many scales and as
    many rows of coefficients as [nscale] says, every row has one
    coefficient per sample of [data], and so has the stored transform of
    the data. *)
Theorem X7_coefficient_matrix_shape :
  forall (data : list R) (largestscale notes : Z) (scaling : string) (cw : Cwt.t),
    Morlet.init data largestscale notes scaling = inr cw ->
    List.length (Cwt.scales cw) = Z.to_nat (Cwt.nscale cw) /\
    List.length (Cwt.cwt cw) = Z.to_nat (Cwt.nscale cw) /\
    Forall (fun row => List.length row = List.length data) (Cwt.cwt cw) /\
    List.length (Cwt.fftdata cw) = List.length data.
Proof.
  intros data largestscale notes scaling cw Hinit.
  destruct (init_unfold data largestscale notes scaling cw Hinit)
    as [ns [sc [omega [Hset [Hom ->]]]]].
  cbn [Cwt.cwt Cwt.scales Cwt.nscale Cwt.fftdata].
  set (rows := Cwt.fill _ ns _).
  assert (Hrows : List.length rows = Z.to_nat ns).
  { unfold rows. rewrite fill_length. apply repeat_length. }
  split; [exact (setscales_length _ _ _ _ _ _ Hset)|].
  split; [exact Hrows|]. split.
  - apply Forall_forall. intros row Hin.
    destruct (In_nth _ _ [] Hin) as [j [Hj Hrow]].
    rewrite Hrows in Hj.
    replace j with (Z.to_nat (Z.of_nat j)) in Hrow by lia.
    unfold rows in Hrow.
    rewrite fill_nth in Hrow; [|lia|rewrite repeat_length; lia].
    rewrite <- Hrow, coefficients_length, fft_length, length_map.
    pose proof (omega_length (Z.of_nat (List.length data)) omega ltac:(lia) Hom).
    lia.
  - now rewrite fft_length, length_map.
Qed.

(** An impulse of eight samples, linear scales. *)
Lemma X7_coefficient_matrix_shape_witness :
  exists cw : Cwt.t,
    Morlet.init [1; 0; 0; 0; 0; 0; 0; 0] 1 0 "linear" = inr cw /\
    List.length (Cwt.scales cw) = Z.to_nat (Cwt.nscale cw) /\
    List.length (Cwt.cwt cw) = Z.to_nat (Cwt.nscale cw) /\
    Forall (fun row => List.length row = List.length [1; 0; 0; 0; 0; 0; 0; 0])
           (Cwt.cwt cw) /\
    List.length (Cwt.fftdata cw) = List.length [1; 0; 0; 0; 0; 0; 0; 0].
Proof.
  eexists. split; [reflexivity|].
  apply (X7_coefficient_matrix_shape [1; 0; 0; 0; 0; 0; 0; 0] 1 0 "linear" _ eq_refl).
Defined.

(** X8. [getpower] returns, entry by entry, the squared modulus of the
    coefficients, the quantity [np.absolute(cwt)**2] that [parallel_me]
    computes itself; the product with the conjugate has no imaginary part
    and no entry of the power is negative. *)
Theorem X8_getpower :
  forall cw : Cwt.t,
    getpower cw = map (map (fun c => absolute c ^ 2)) (Cwt.cwt cw) /\
    Forall (Forall (fun p => 0 <= p)) (getpower cw) /\
    (forall c : C, snd (Cx.mul c (conjugate c)) = 0).
Proof.
  intros cw.
  assert (Hsq : forall c : C, fst (Cx.mul c (conjugate c)) = absolute c ^ 2).
  { intros [re im]. unfold Cx.mul, conjugate, absolute. cbn [fst snd].
    rewrite pow2_sqrt by nra. ring. }
  split; [|split].
  - unfold getpower. apply map_ext. intros row. apply map_ext. exact Hsq.
  - unfold getpower. apply Forall_forall. intros row Hrow.
    apply in_map_iff in Hrow. destruct Hrow as [r [<- _]].
    apply Forall_forall. intros p Hp.
    apply in_map_iff in Hp. destruct Hp as [c [<- _]].
    rewrite Hsq. apply pow2_ge_0.
  - intros [re im]. unfold Cx.mul, conjugate. cbn [fst snd]. ring.
Qed.

(** ** The Morlet kernel *)

(** X9. [Morlet.wf] returns one value per input; each value lies between 0
    and 0.75112554, is 0 where the input is negative, and reaches
    0.75112554 exactly where the input is 6. *)
Theorem X9_morlet_kernel_range :
  forall (s_omega : list R) (i : nat),
    (i < List.length s_omega)%nat ->
    let x := nth i s_omega 0 in
    let v := nth i (Morlet.wf s_omega) 0 in
    List.length (Morlet.wf s_omega) = List.length s_omega /\
    0 <= v <= 0.75112554 /\
    (x < 0 -> v = 0) /\
    (v = 0.75112554 <-> x = 6).
Proof.
  intros s_omega i Hi x v. split; [apply wf_length|].
  assert (Hv : v = spec_psi x).
  { unfold v, x. rewrite wf_spec. now apply nth_map_lt. }
  rewrite Hv. unfold spec_psi.
  pose proof (pow2_ge_0 (x - 6.0)) as Hsq.
  set (y := - (x - 6.0) ^ 2 / 2).
  assert (Hy : y <= 0) by (unfold y; lra).
  assert (Hexp : 0 < exp y <= 1).
  { split; [apply exp_pos|]. rewrite <- exp_0.
    destruct Hy as [Hlt|Heq]; [left; now apply exp_increasing|rewrite Heq; lra]. }
  destruct (Rlt_dec x 0) as [Hneg|Hpos].
  - split; [lra|]. split; [reflexivity|]. split; intros H; lra.
  - split; [nra|]. split; [intros H; lra|]. split.
    + intros Hpeak.
      assert (Hone : exp y = 1) by nra.
      assert (Hy0 : y = 0).
      { destruct Hy as [Hlt|Heq]; [|exact Heq].
        apply exp_increasing in Hlt. rewrite exp_0 in Hlt. lra. }
      unfold y in Hy0.
      assert (Hz : (x - 6.0) * (x - 6.0) = 0) by lra.
      apply Rmult_integral in Hz. lra.
    + intros Hx. unfold y. rewrite Hx.
      replace (- (6 - 6.0) ^ 2 / 2) with 0 by lra. rewrite exp_0. lra.
Qed.

(** The scaled frequencies -1, 0 and 6. *)
Lemma X9_morlet_kernel_range_witness :
  let x := nth 2 [-1; 0; 6] 0 in
  let v := nth 2 (Morlet.wf [-1; 0; 6]) 0 in
  List.length (Morlet.wf [-1; 0; 6]) = List.length [-1; 0; 6] /\
  0 <= v <= 0.75112554 /\
  (x < 0 -> v = 0) /\
  (v = 0.75112554 <-> x = 6).
Proof.
  apply (X9_morlet_kernel_range [-1; 0; 6] 2). simpl. lia.
Defined.

(** X10. For a signal of [N >= 1] samples and a positive scale, the
    frequencies [omega] exist and the kernel [wf(omega * scale)] of the
    transform is 0 at every bin of the second half of the spectrum (indices
    [N/2] to [N - 1], the negative frequencies): only the non-negative
    frequencies of the data enter the coefficients. *)
Theorem X10_negative_frequencies_vanish :
  forall (N i : Z) (s : R),
    (1 <= N)%Z -> 0 < s -> (N / 2 <= i < N)%Z ->
    exists omega : list R,
      Cwt.omega N = inr omega /\
      nth (Z.to_nat i) omega 0 = IZR (i - N) * (2 * PI / IZR N) /\
      nth (Z.to_nat i) (Morlet.wf (Np.mul_scalar omega s)) 0 = 0.
Proof.
  intros N i s HN Hs Hi.
  assert (Hhalf : (0 <= N / 2)%Z) by (apply Z.div_pos; lia).
  assert (Hsum : (N / 2 - - N / 2 = N)%Z) by (Z.div_mod_to_equations; lia).
  eexists. split; [exact (omega_unfold N HN)|].
  set (omega := map (fun k => IZR k * (2 * PI / IZR N))
                    (Py.range2 0 (N / 2) ++ Py.range2 (- N / 2) 0)).
  assert (Hom : nth (Z.to_nat i) omega 0 = IZR (i - N) * (2 * PI / IZR N)).
  { unfold omega.
    rewrite (nth_map_lt _ _ _ _ 0%Z)
      by (rewrite length_app, !range2_length; lia).
    rewrite app_nth2 by (rewrite range2_length; lia).
    rewrite range2_length, range2_nth by lia.
    do 2 f_equal. lia. }
  split; [exact Hom|].
  pose proof (omega_length N omega ltac:(lia) (omega_unfold N HN)) as Hlen.
  rewrite wf_spec. unfold Np.mul_scalar. rewrite map_map.
  rewrite (nth_map_lt _ _ _ _ 0) by lia.
  rewrite Hom. unfold spec_psi.
  destruct (Rlt_dec (IZR (i - N) * (2 * PI / IZR N) * s) 0) as [_|Hge];
    [reflexivity|].
  exfalso. apply Hge.
  assert (Hk : IZR (i - N) <= -1) by (apply IZR_le; lia).
  assert (HN0 : 1 <= IZR N) by (apply IZR_le; lia).
  assert (Hbin : 0 < 2 * PI / IZR N).
  { apply Rdiv_lt_0_compat; [|lra]. pose proof PI_RGT_0. lra. }
  set (w := 2 * PI / IZR N) in *.
  assert (IZR (i - N) * w < 0) by nra.
  nra.
Qed.

(** Eight samples, scale 2, bin 5. *)
Lemma X10_negative_frequencies_vanish_witness :
  exists omega : list R,
    Cwt.omega 8 = inr omega /\
    nth (Z.to_nat 5) omega 0 = IZR (5 - 8) * (2 * PI / IZR 8) /\
    nth (Z.to_nat 5) (Morlet.wf (Np.mul_scalar omega 2)) 0 = 0.
Proof.
  apply (X10_negative_frequencies_vanish 8 5 2).
  - lia.
  - lra.
  - change (8 / 2)%Z with 4%Z. lia.
Defined.

(** ** The design of the trend filter *)

Lemma range2_In (start stop k : Z) :
  In k (Py.range2 start stop) <-> (start <= k < stop)%Z.
Proof.
  rewrite range2_seq, in_map_iff. split.
  - intros [i [<- Hi]]. apply in_seq in Hi. lia.
  - intros Hk. exists (Z.to_nat (k - start)). split; [lia|].
    apply in_seq. lia.
Qed.

Lemma exps_count (n : nat) :
  (2 * List.length
         (flat_map (fun k => map (fun m => ((k - m)%Z, m)) (Py.range2 0 (k + 1)))
                   (map (fun i => (0 + Z.of_nat i)%Z) (seq 0 n))) =
   n * (n + 1))%nat.
Proof.
  induction n as [|n IH]; [reflexivity|].
  rewrite seq_S, map_app, flat_map_app, length_app. cbn [map flat_map].
  rewrite app_nil_r, length_map, range2_length. lia.
Qed.

(** X11. For an order [p >= 0] the design matrix of [sgolay2d] has one
    column per pair of exponents [(i, j)] with [i, j >= 0] and
    [i + j <= p]; there are [(p + 1)(p + 2) / 2] of them, the number
    [n_terms] that the guard compares with the number of points of the
    window. *)
Theorem X11_exponents :
  forall order : Z,
    (0 <= order)%Z ->
    Z.of_nat (List.length (exps order)) = ((order + 1) * (order + 2) / 2)%Z /\
    (forall i j : Z,
        In (i, j) (exps order) <-> (0 <= i /\ 0 <= j /\ i + j <= order)%Z) /\
    (forall W : Z,
        (inject_Z (W ^ 2) ?= n_terms order)%Q =
        (W * W ?= Z.of_nat (List.length (exps order)))%Z).
Proof.
  intros order Horder.
  assert (Hlen : Z.of_nat (List.length (exps order))
                 = ((order + 1) * (order + 2) / 2)%Z).
  { unfold exps. rewrite (range2_seq 0 (order + 1)).
    pose proof (exps_count (Z.to_nat (order + 1 - 0))) as Hc.
    set (len := List.length _) in *.
    apply Z.div_unique_exact; [lia|]. nia. }
  split; [exact Hlen|]. split.
  - intros i j. unfold exps. rewrite in_flat_map. split.
    + intros [k [Hk Hin]]. apply range2_In in Hk.
      apply in_map_iff in Hin. destruct Hin as [m [Heq Hm]].
      apply range2_In in Hm. injection Heq as <- <-. lia.
    + intros Hij. exists (i + j)%Z. split; [apply range2_In; lia|].
      apply in_map_iff. exists j. split; [f_equal; lia|].
      apply range2_In. lia.
  - intros W. rewrite Hlen. apply n_terms_compare.
Qed.

(** The order 3 of [processimage]: ten monomials. *)
Lemma X11_exponents_witness :
  Z.of_nat (List.length (exps 3)) = ((3 + 1) * (3 + 2) / 2)%Z /\
  (forall i j : Z,
      In (i, j) (exps 3) <-> (0 <= i /\ 0 <= j /\ i + j <= 3)%Z) /\
  (forall W : Z,
      (inject_Z (W ^ 2) ?= n_terms 3)%Q =
      (W * W ?= Z.of_nat (List.length (exps 3)))%Z).
Proof.
  apply (X11_exponents 3). lia.
Defined.

Lemma flat_map_repeat_length (w : nat) (l : list R) :
  List.length (flat_map (fun x => repeat x w) l) = (List.length l * w)%nat.
Proof.
  induction l as [|x l IH]; [reflexivity|].
  cbn [flat_map List.length]. rewrite length_app, repeat_length, IH. lia.
Qed.

Lemma nth_repeat_lt (x d : R) (w i : nat) :
  (i < w)%nat -> nth i (repeat x w) d = x.
Proof.
  intros Hi. rewrite (nth_indep _ d x) by (now rewrite repeat_length).
  apply nth_repeat.
Qed.

Lemma flat_map_repeat_nth (w : nat) (l : list R) :
  forall i : nat,
    (i < List.length l * w)%nat ->
    nth i (flat_map (fun x => repeat x w) l) 0 = nth (i / w) l 0.
Proof.
  induction l as [|x l IH]; intros i Hi; [cbn in Hi; lia|].
  assert (Hw : (0 < w)%nat) by (destruct w; [cbn in Hi; lia|lia]).
  cbn [flat_map].
  destruct (Nat.lt_ge_cases i w) as [Hlt|Hge].
  - rewrite app_nth1 by (now rewrite repeat_length).
    rewrite nth_repeat_lt by exact Hlt.
    now rewrite Nat.div_small.
  - rewrite app_nth2 by (rewrite repeat_length; lia).
    rewrite repeat_length, IH by (cbn in Hi; lia).
    replace i with ((i - w) + 1 * w)%nat at 2 by lia.
    rewrite Nat.div_add by lia.
    replace ((i - w) / w + 1)%nat with (S ((i - w) / w)) by lia.
    reflexivity.
Qed.

Lemma concat_repeat_nth (w : nat) (l : list R) :
  forall i : nat,
    (i < w * List.length l)%nat ->
    nth i (List.concat (repeat l w)) 0 = nth (i mod List.length l) l 0.
Proof.
  induction w as [|w IH]; intros i Hi; [lia|].
  cbn [repeat List.concat].
  destruct (Nat.lt_ge_cases i (List.length l)) as [Hlt|Hge].
  - rewrite app_nth1 by exact Hlt. now rewrite Nat.mod_small.
  - rewrite app_nth2 by lia. rewrite IH by lia.
    replace i with ((i - List.length l) + 1 * List.length l)%nat at 2 by lia.
    rewrite Nat.Div0.mod_add. reflexivity.
Qed.

(** X12. For a window size [W >= 1], the coordinates [dx], [dy] of the
    window's points exist exactly when [W] is odd.  Then there are [W * W]
    points, the point of index [i] having
    [dx = -(W/2) + i / W] and [dy = -(W/2) + i mod W]: the square grid
    centred on the pixel, row by row.  For an even [W] the reshape of [dy]
    raises [ValueError]. *)
Theorem X12_window_points :
  forall W : Z,
    (1 <= W)%Z ->
    (Z.odd W = true ->
     exists dx dy,
       window_points W = inr (dx, dy) /\
       List.length dx = Z.to_nat (W * W) /\
       List.length dy = Z.to_nat (W * W) /\
       forall i : nat,
         (i < Z.to_nat (W * W))%nat ->
         nth i dx 0 = IZR (- (W / 2) + Z.of_nat i / W) /\
         nth i dy 0 = IZR (- (W / 2) + Z.of_nat i mod W)) /\
    (Z.even W = true ->
     exists msg, window_points W = inl (Py.ValueError msg)).
Proof.
  intros W HW.
  set (half := (W / 2)%Z).
  set (ind := map IZR (Py.range2 (- half) (half + 1))).
  assert (Hhalf : (0 <= half)%Z) by (apply Z.div_pos; lia).
  assert (Hind : List.length ind = Z.to_nat (2 * half + 1)).
  { unfold ind. rewrite length_map, range2_length. lia. }
  assert (Hind_nth : forall n, (n < Z.to_nat (2 * half + 1))%nat ->
                               nth n ind 0 = IZR (- half + Z.of_nat n)).
  { intros n Hn. unfold ind.
    rewrite (nth_map_lt _ _ _ _ 0%Z) by (rewrite range2_length; lia).
    now rewrite range2_nth by lia. }
  split.
  - intros Hodd.
    assert (HW2 : W = (2 * half + 1)%Z).
    { unfold half. rewrite (Z.div_mod W 2) at 1 by lia.
      rewrite Zmod_odd, Hodd. lia. }
    assert (Hlen_ind : List.length ind = Z.to_nat W) by (rewrite Hind; lia).
    exists (flat_map (fun x => repeat x (Z.to_nat W)) ind).
    exists (List.concat (repeat ind (Z.to_nat W))).
    split; [|split; [|split]].
    + unfold window_points. fold half. fold ind.
      rewrite concat_repeat_length, Hlen_ind.
      destruct (Z.eqb_spec (Z.of_nat (Z.to_nat W * Z.to_nat W)) (W ^ 2)) as [_|Hne];
        [reflexivity|].
      exfalso. apply Hne. nia.
    + rewrite flat_map_repeat_length, Hlen_ind. nia.
    + rewrite concat_repeat_length, Hlen_ind. nia.
    + intros i Hi.
      assert (HiW : (i < Z.to_nat W * Z.to_nat W)%nat) by nia.
      assert (Hdiv : Z.of_nat (i / Z.to_nat W) = (Z.of_nat i / W)%Z).
      { rewrite Nat2Z.inj_div. f_equal. lia. }
      assert (Hmod : Z.of_nat (i mod Z.to_nat W) = (Z.of_nat i mod W)%Z).
      { rewrite Nat2Z.inj_mod. f_equal. lia. }
      assert (Hq : (i / Z.to_nat W < Z.to_nat W)%nat)
        by (apply Nat.Div0.div_lt_upper_bound; lia).
      assert (Hr : (i mod Z.to_nat W < Z.to_nat W)%nat)
        by (apply Nat.mod_upper_bound; lia).
      split.
      * rewrite flat_map_repeat_nth by (rewrite Hlen_ind; exact HiW).
        rewrite Hind_nth by lia. now rewrite Hdiv.
      * rewrite concat_repeat_nth by (rewrite Hlen_ind; exact HiW).
        rewrite Hlen_ind, Hind_nth by lia. now rewrite Hmod.
  - intros Heven.
    assert (HW2 : W = (2 * half)%Z).
    { unfold half. rewrite (Z.div_mod W 2) at 1 by lia.
      rewrite Zmod_even, Heven. lia. }
    eexists. unfold window_points. fold half. fold ind.
    rewrite concat_repeat_length, Hind.
    destruct (Z.eqb_spec (Z.of_nat (Z.to_nat W * Z.to_nat (2 * half + 1))) (W ^ 2))
      as [Heq|_]; [|reflexivity].
    exfalso. nia.
Qed.

(** The window of 5 pixels. *)
Lemma X12_window_points_witness :
  (Z.odd 5 = true ->
   exists dx dy,
     window_points 5 = inr (dx, dy) /\
     List.length dx = Z.to_nat (5 * 5) /\
     List.length dy = Z.to_nat (5 * 5) /\
     forall i : nat,
       (i < Z.to_nat (5 * 5))%nat ->
       nth i dx 0 = IZR (- (5 / 2) + Z.of_nat i / 5) /\
       nth i dy 0 = IZR (- (5 / 2) + Z.of_nat i mod 5)) /\
  (Z.even 5 = true ->
   exists msg, window_points 5 = inl (Py.ValueError msg)).
Proof.
  apply (X12_window_points 5). lia.
Defined.

(** ** How many columns are analysed *)

Lemma range_up_length (fuel : nat) :
  forall cur stop step : Z,
    (0 < step)%Z -> (stop - cur <= Z.of_nat fuel)%Z ->
    Z.of_nat (List.length (Py.range_up fuel cur stop step)) =
    Z.max 0 ((stop - cur + step - 1) / step).
Proof.
  induction fuel as [|fuel IH]; intros cur stop step Hstep Hfuel.
  - cbn [Py.range_up List.length].
    assert ((stop - cur + step - 1) / step <= 0)%Z; [|lia].
    apply Z.lt_succ_r. apply Z.div_lt_upper_bound; lia.
  - cbn [Py.range_up]. destruct (Z.ltb_spec cur stop) as [Hlt|Hge].
    + cbn [List.length]. rewrite Nat2Z.inj_succ, IH by lia.
      replace (stop - cur + step - 1)%Z with (stop - (cur + step) + step - 1 + 1 * step)%Z
        by ring.
      rewrite Z.div_add by lia.
      assert (0 <= (stop - (cur + step) + step - 1) / step)%Z; [|lia].
      apply Z.div_pos; lia.
    + cbn [List.length].
      assert ((stop - cur + step - 1) / step <= 0)%Z; [|lia].
      apply Z.lt_succ_r. apply Z.div_lt_upper_bound; lia.
Qed.

(** X13. For a stride [density >= 1] the dispatcher analyses
    [ceil((nx - 2) / density)] columns of an image of [nx] rows (none when
    [nx <= 2]); for a square image it returns that many vectors. *)
Theorem X13_number_of_columns :
  forall (parallel_me : list R -> list R) (useregion : list (list R))
         (nx density : Z),
    (1 <= density)%Z ->
    Z.of_nat (List.length useregion) = nx ->
    Forall (fun row => Z.of_nat (List.length row) = nx) useregion ->
    exists ks d,
      sampled_columns nx density = inr ks /\
      dispatch parallel_me useregion nx density = inr d /\
      Z.of_nat (List.length ks) = Z.max 0 ((nx - 3 + density) / density) /\
      List.length d = List.length ks.
Proof.
  intros parallel_me useregion nx density Hd Hrows Hcols.
  assert (Hrange : sampled_columns nx density =
                   inr (Py.range_up (Z.to_nat (nx - 1 - 1)) 1 (nx - 1) density)).
  { unfold sampled_columns, Py.range3.
    destruct (Z.eqb_spec density 0) as [?|_]; [lia|].
    destruct (Z.ltb_spec 0 density) as [_|?]; [reflexivity|lia]. }
  set (ks := Py.range_up (Z.to_nat (nx - 1 - 1)) 1 (nx - 1) density) in *.
  exists ks.
  exists (map (fun k => parallel_me
                          (map (fun row => nth (Z.to_nat k) row 0) useregion)) ks).
  split; [exact Hrange|]. split; [|split].
  - unfold dispatch. rewrite Hrange. cbn [Py.bind].
    apply comprehension_total. apply Forall_forall. intros k Hk.
    apply range_up_In in Hk; [|lia|lia]. destruct Hk as [Hk _].
    rewrite (column_nth useregion k 0); [reflexivity|].
    eapply Forall_impl; [|exact Hcols]. cbn beta. intros row Hrow. lia.
  - unfold ks. rewrite range_up_length by lia. f_equal. f_equal. ring.
  - apply length_map.
Qed.

(** A 12 x 12 image with the stride 4: columns 1, 5 and 9. *)
Lemma X13_number_of_columns_witness :
  exists ks d,
    sampled_columns 12 4 = inr ks /\
    dispatch (fun A => A) (repeat (repeat 1 12) 12) 12 4 = inr d /\
    Z.of_nat (List.length ks) = Z.max 0 ((12 - 3 + 4) / 4) /\
    List.length d = List.length ks.
Proof.
  apply (X13_number_of_columns (fun A => A) (repeat (repeat 1 12) 12) 12 4).
  - lia.
  - reflexivity.
  - repeat constructor.
Defined.

(** ** Columns out of range *)

Lemma getitem_cases (row : list R) (i : Z) :
  let n := Z.of_nat (List.length row) in
  ((- n <= i < n)%Z ->
   Py.getitem row i =
   inr (nth (Z.to_nat (if (i <? 0)%Z then i + n else i)%Z) row 0)) /\
  ((i < - n \/ n <= i)%Z -> Py.getitem row i = inl Py.IndexError).
Proof.
  intros n. unfold Py.getitem. fold n.
  destruct (Z.ltb_spec i 0) as [Hneg|Hpos]; split; intros Hi.
  - destruct (Z.leb_spec 0 (i + n)); [|lia].
    destruct (Z.ltb_spec (i + n) n); [|lia]. cbn [andb].
    destruct (nth_error row (Z.to_nat (i + n))) as [a|] eqn:E.
    + now rewrite (nth_error_nth _ _ 0 E).
    + apply nth_error_None in E. lia.
  - destruct (Z.leb_spec 0 (i + n)); [lia|]. reflexivity.
  - destruct (Z.leb_spec 0 i); [|lia].
    destruct (Z.ltb_spec i n); [|lia]. cbn [andb].
    destruct (nth_error row (Z.to_nat i)) as [a|] eqn:E.
    + now rewrite (nth_error_nth _ _ 0 E).
    + apply nth_error_None in E. lia.
  - destruct (Z.leb_spec 0 i); [|lia].
    destruct (Z.ltb_spec i n); [lia|]. reflexivity.
Qed.

(** X14. [column(matrix, i)] raises [IndexError] exactly when some row has no
    entry of index [i], that is when [i] lies outside [-len(row), len(row))
    for a row; otherwise it returns, row by row, the entry of index [i],
    a negative [i] counting from the end of each row. *)
Theorem X14_column_index_error :
  forall (matrix : list (list R)) (i : Z),
    (column matrix i = inl Py.IndexError <->
     Exists (fun row => (i < - Z.of_nat (List.length row) \/
                         Z.of_nat (List.length row) <= i)%Z) matrix) /\
    (Forall (fun row => (- Z.of_nat (List.length row) <= i
                         < Z.of_nat (List.length row))%Z) matrix ->
     column matrix i =
     inr (map (fun row =>
                 nth (Z.to_nat (if (i <? 0)%Z
                                then i + Z.of_nat (List.length row) else i)%Z)
                     row 0) matrix)).
Proof.
  intros matrix i. unfold column.
  induction matrix as [|row matrix [IHerr IHok]].
  - cbn. split; [|reflexivity]. split; [discriminate|].
    intros H. inversion H.
  - cbn [Py.comprehension map].
    destruct (getitem_cases row i) as [Hin Hout]. cbn zeta in Hin, Hout.
    destruct (Z_lt_ge_dec i (- Z.of_nat (List.length row))) as [Hlow|Hlow];
      [|destruct (Z_le_gt_dec (Z.of_nat (List.length row)) i) as [Hhigh|Hhigh]].
    + rewrite Hout by lia. cbn [Py.bind]. split.
      * split; [intros _; left; lia|reflexivity].
      * intros HF. inversion HF; subst. lia.
    + rewrite Hout by lia. cbn [Py.bind]. split.
      * split; [intros _; left; lia|reflexivity].
      * intros HF. inversion HF; subst. lia.
    + rewrite Hin by lia. cbn [Py.bind]. split.
      * split.
        -- intros Herr. right. apply IHerr.
           destruct (Py.comprehension (fun row0 => Py.getitem row0 i) matrix);
             [exact Herr|discriminate].
        -- intros HE. inversion HE as [? ? Hrow|? ? Hrest]; subst; [lia|].
           apply IHerr in Hrest. now rewrite Hrest.
      * intros HF. inversion HF; subst. rewrite IHok by assumption. reflexivity.
Qed.

(** ** A run that completes *)

Section BatchRuns.

Variables image stats : Type.
Variable Image_open : string -> Py.result image.
Variable analyse : image -> Py.result stats.
Variable writeout : string -> stats -> Py.result unit.

Lemma process_files_completed (files : list string) :
  forall st st',
    process_files image stats Image_open analyse writeout files st = Completed st' ->
    Forall (fun item =>
              exists im r, Image_open item = inr im /\ analyse im = inr r /\
                           writeout item r = inr tt) files /\
    count st' = (count st + Z.of_nat (List.length files))%Z /\
    map fst (written st') = map fst (written st) ++ files.
Proof.
  induction files as [|item files IH]; intros st st' Hrun.
  - cbn in Hrun. injection Hrun as <-. split; [constructor|].
    split; [cbn; lia|now rewrite app_nil_r].
  - cbn [process_files] in Hrun.
    destruct (process_item image stats Image_open analyse writeout item)
      as [e|r] eqn:Hstep; [discriminate|].
    apply process_item_ok in Hstep. destruct Hstep as [im Him].
    apply IH in Hrun. cbn [count written] in Hrun.
    destruct Hrun as [HF [Hc Hw]]. split; [|split].
    + constructor; [exists im, r; exact Him|exact HF].
    + rewrite Hc. cbn [List.length]. lia.
    + rewrite Hw, map_app. cbn [map fst]. now rewrite <- app_assoc.
Qed.

End BatchRuns.

(** X15. The main program runs to completion exactly when every file of
    every group is opened, analysed and written without an exception; the
    counter then equals the number of files and the results are written for
    the files in the order of the groups, a file listed twice being
    analysed twice. *)
Theorem X15_run_completes :
  forall (image stats : Type) (Image_open : string -> Py.result image)
         (analyse : image -> Py.result stats)
         (writeout : string -> stats -> Py.result unit)
         (groups : list (list string)),
    ((exists st,
         main image stats Image_open analyse writeout groups = Completed st) <->
     Forall (fun item =>
               exists im r, Image_open item = inr im /\ analyse im = inr r /\
                            writeout item r = inr tt)
            (List.concat groups)) /\
    (forall st,
        main image stats Image_open analyse writeout groups = Completed st ->
        count st = Z.of_nat (List.length (List.concat groups)) /\
        map fst (written st) = List.concat groups).
Proof.
  intros image stats Image_open analyse writeout groups. unfold main.
  rewrite process_groups_concat. split.
  - split.
    + intros [st Hrun].
      now apply (process_files_completed image stats Image_open analyse writeout)
        in Hrun.
    + intros Hall.
      destruct (process_files_readable image stats Image_open analyse writeout
                  (List.concat groups) Hall (mk_run_state stats 0 []))
        as [results [_ Hrun]].
      eexists. exact Hrun.
  - intros st Hrun.
    apply (process_files_completed image stats Image_open analyse writeout)
      in Hrun.
    cbn [count written map app] in Hrun.
    destruct Hrun as [_ [Hc Hw]]. split; [lia|exact Hw].
Qed.

(** ** The sampling stride *)

(** X16. Whatever is given as option [-d], the stride that reaches
    [processimage] is not 0 (a stride of 0 is replaced by the default 10,
    like a missing option), so that listing the columns never fails on a
    zero step; a negative stride is passed on and selects no column of an
    image with at least two rows. *)
Theorem X16_effective_density :
  forall (arg : option Z) (nx : Z),
    effective_density arg <> 0%Z /\
    (exists ks, sampled_columns nx (effective_density arg) = inr ks) /\
    (forall d, arg = Some d -> d <> 0%Z -> effective_density arg = d) /\
    (forall d, arg = Some d -> (d < 0)%Z -> (2 <= nx)%Z ->
               sampled_columns nx (effective_density arg) = inr []).
Proof.
  intros arg nx.
  assert (Hne : effective_density arg <> 0%Z).
  { destruct arg as [d|]; cbn; [|lia].
    destruct (Z.eqb_spec d 0); lia. }
  split; [exact Hne|]. split; [|split].
  - unfold sampled_columns, Py.range3.
    destruct (Z.eqb_spec (effective_density arg) 0) as [?|_]; [contradiction|].
    destruct (0 <? effective_density arg)%Z; eexists; reflexivity.
  - intros d -> Hd. cbn. destruct (Z.eqb_spec d 0); [contradiction|reflexivity].
  - intros d -> Hd Hnx. cbn. destruct (Z.eqb_spec d 0) as [?|_]; [lia|].
    unfold sampled_columns, Py.range3.
    destruct (Z.eqb_spec d 0) as [?|_]; [lia|].
    destruct (Z.ltb_spec 0 d) as [?|_]; [lia|].
    cbn [Py.ret]. f_equal.
    destruct (Z.to_nat (1 - (nx - 1))) as [|fuel]; [reflexivity|].
    cbn [Py.range_down]. destruct (Z.ltb_spec (nx - 1) 1); [lia|reflexivity].
Qed.

(** ** The density after the first normalisation *)

Lemma sum_nonneg (l : list R) : Forall (fun x => 0 <= x) l -> 0 <= Np.sum l.
Proof.
  unfold Np.sum. induction 1 as [|x l Hx _ IH]; cbn [fold_right]; lra.
Qed.

Lemma sum_upper (l : list R) :
  Forall (fun x => 0 <= x) l -> Forall (fun x => x <= Np.sum l) l.
Proof.
  unfold Np.sum. induction 1 as [|x l Hx Hl IH]; [constructor|].
  cbn [fold_right]. pose proof (sum_nonneg l Hl) as Hs. unfold Np.sum in Hs.
  constructor; [lra|].
  eapply Forall_impl; [|exact IH]. cbn beta. intros y Hy. lra.
Qed.

Lemma mean_nonneg (l : list R) : Forall (fun x => 0 <= x) l -> 0 <= Np.mean l.
Proof.
  intros Hl. unfold Np.mean. pose proof (sum_nonneg l Hl) as Hs.
  destruct l as [|x l].
  - unfold Np.sum. cbn. unfold Rdiv. rewrite Rmult_0_l. lra.
  - apply Rmult_le_pos; [exact Hs|].
    left. apply Rinv_0_lt_compat. apply lt_0_INR. cbn. lia.
Qed.

Lemma var_nonneg (a : list R) : 0 <= Np.var a.
Proof.
  unfold Np.var. apply mean_nonneg. apply Forall_forall.
  intros y Hy. apply in_map_iff in Hy. destruct Hy as [x [<- _]].
  apply pow2_ge_0.
Qed.

(** X17. When the per-scale variances across columns do not all vanish,
    every entry of the density after the first normalisation lies between
    0 and 1. *)
Theorem X17_density_entries :
  forall (d : list (list R)) (nscales : nat),
    Np.sum (column_variance d nscales) <> 0 ->
    Forall (fun p => 0 <= p <= 1) (varcwt1 d nscales).
Proof.
  intros d nscales Hsum. unfold varcwt1, Np.div_scalar.
  set (v := column_variance d nscales) in *.
  assert (Hv : Forall (fun x => 0 <= x) v).
  { unfold v, column_variance. apply Forall_forall. intros y Hy.
    apply in_map_iff in Hy. destruct Hy as [row [<- _]]. apply var_nonneg. }
  pose proof (sum_nonneg v Hv) as Hs. pose proof (sum_upper v Hv) as Hu.
  assert (Hpos : 0 < Np.sum v) by lra.
  apply Forall_forall. intros p Hp.
  apply in_map_iff in Hp. destruct Hp as [x [<- Hx]].
  pose proof (proj1 (Forall_forall _ _) Hv x Hx) as Hx0.
  pose proof (proj1 (Forall_forall _ _) Hu x Hx) as Hx1.
  cbn beta in Hx0, Hx1. split.
  - apply Rmult_le_pos; [exact Hx0|]. left. now apply Rinv_0_lt_compat.
  - apply Rmult_le_reg_r with (Np.sum v); [exact Hpos|].
    replace (x / Np.sum v * Np.sum v) with x by (field; lra). lra.
Qed.

(** Two columns and two scales. *)
Lemma X17_density_entries_witness :
  Forall (fun p => 0 <= p <= 1) (varcwt1 [[1; 0]; [0; 1]] 2).
Proof.
  apply (X17_density_entries [[1; 0]; [0; 1]] 2). np_eval. lra.
Defined.

(** ** The statistics and the resolution *)

Lemma sum_mul_scaled (c : R) (f g : R -> R) (density : list R) :
  (forall x, f x = c * g x) ->
  forall sizes,
    Np.sum (Np.mul density (map f sizes)) =
    c * Np.sum (Np.mul density (map g sizes)).
Proof.
  intros Hfg. unfold Np.sum, Np.mul.
  induction density as [|w density IH]; intros [|s sizes];
    cbn [map combine fold_right fst snd]; try ring.
  rewrite IH, Hfg. ring.
Qed.

(** X18. The resolution is a factor of the mean and of the standard
    deviation and leaves the skewness and the kurtosis as they are: with
    every size multiplied by a positive [r], [mnsz] and [srt] are
    multiplied by [r], [sk] and [kurt] do not change. *)
Theorem X18_resolution_scaling :
  forall (scales density : list R) (r : R),
    0 < r ->
    mnsz (Np.mul_scalar scales r) density = mnsz scales density * r /\
    srt (Np.mul_scalar scales r) density = srt scales density * r /\
    sk (Np.mul_scalar scales r) density = sk scales density /\
    kurt (Np.mul_scalar scales r) density = kurt scales density.
Proof.
  intros scales density r Hr.
  assert (Hm : mnsz (Np.mul_scalar scales r) density = mnsz scales density * r).
  { unfold mnsz, Np.mul_scalar.
    rewrite (sum_mul_scaled r (fun x => x * r) (fun x => x)) by (intros; ring).
    rewrite map_id. ring. }
  assert (Hmoment : forall k : nat,
            Np.sum (Np.mul density
                      (map (fun s => (s - mnsz scales density * r) ^ k)
                           (Np.mul_scalar scales r))) =
            r ^ k * Np.sum (Np.mul density
                              (map (fun s => (s - mnsz scales density) ^ k) scales))).
  { intros k. unfold Np.mul_scalar. rewrite map_map.
    apply sum_mul_scaled. intros x.
    replace (x * r - mnsz scales density * r) with (r * (x - mnsz scales density))
      by ring.
    apply Rpow_mult_distr. }
  assert (Hs : srt (Np.mul_scalar scales r) density = srt scales density * r).
  { unfold srt. rewrite Hm, Hmoment.
    rewrite sqrt_mult_alt by apply pow2_ge_0.
    rewrite sqrt_pow2 by lra. ring. }
  split; [exact Hm|]. split; [exact Hs|]. split.
  - unfold sk. rewrite Hs, Hm, !py_sum_np_sum, Hmoment.
    replace (100 * (srt scales density * r) ^ 3)
      with (r ^ 3 * (100 * srt scales density ^ 3)) by ring.
    unfold Rdiv. rewrite Rinv_mult.
    set (u := / (100 * srt scales density ^ 3)). field. lra.
  - unfold kurt. rewrite Hs, Hm, !py_sum_np_sum, Hmoment.
    replace (100 * (srt scales density * r) ^ 4)
      with (r ^ 4 * (100 * srt scales density ^ 4)) by ring.
    unfold Rdiv. rewrite Rinv_mult.
    set (u := / (100 * srt scales density ^ 4)). field. lra.
Qed.

(** Two sizes at 0.05 mm per pixel. *)
Lemma X18_resolution_scaling_witness :
  mnsz (Np.mul_scalar [1; 3] 0.05) [0.5; 0.5] = mnsz [1; 3] [0.5; 0.5] * 0.05 /\
  srt (Np.mul_scalar [1; 3] 0.05) [0.5; 0.5] = srt [1; 3] [0.5; 0.5] * 0.05 /\
  sk (Np.mul_scalar [1; 3] 0.05) [0.5; 0.5] = sk [1; 3] [0.5; 0.5] /\
  kurt (Np.mul_scalar [1; 3] 0.05) [0.5; 0.5] = kurt [1; 3] [0.5; 0.5].
Proof.
  apply (X18_resolution_scaling [1; 3] [0.5; 0.5] 0.05). lra.
Defined.

(** ** From the columns' vectors to the variance across columns *)

Lemma rows_of_concat (n : nat) (d : list (list R)) :
  (0 < n)%nat -> Forall (fun row => List.length row = n) d ->
  forall fuel, (List.length d <= fuel)%nat ->
               Np.rows_of fuel n (List.concat d) = d.
Proof.
  intros Hn. induction 1 as [|row d Hrow _ IH]; intros fuel Hfuel.
  - destruct fuel; reflexivity.
  - destruct fuel as [|fuel]; [cbn in Hfuel; lia|].
    cbn [List.concat Np.rows_of].
    destruct (row ++ List.concat d) as [|x rest] eqn:E.
    + destruct row; [cbn in Hrow; lia|discriminate].
    + rewrite <- E. rewrite <- Hrow at 1 3.
      rewrite firstn_app, Nat.sub_diag, firstn_all, skipn_app, Nat.sub_diag,
        skipn_all. cbn [firstn skipn app]. rewrite app_nil_r.
      f_equal. apply IH. cbn in Hfuel. lia.
Qed.

(** X19. When every sampled column gave a vector of [n >= 1] entries, the
    reshape leaves the list of vectors as it is, and the entry of index [j]
    of the variance vector is the variance, over the columns in their
    order, of the entries of index [j] of their vectors. *)
Theorem X19_variance_across_columns :
  forall (d : list (list R)) (n : nat),
    (0 < n)%nat -> Forall (fun row => List.length row = n) d ->
    Np.reshape d n = d /\
    List.length (column_variance d n) = n /\
    forall j : nat,
      (j < n)%nat ->
      nth j (column_variance d n) 0 = Np.var (map (fun col => nth j col 0) d).
Proof.
  intros d n Hn Hd.
  assert (Hre : Np.reshape d n = d).
  { unfold Np.reshape, Np.flatten. apply rows_of_concat; try assumption.
    rewrite length_concat.
    clear -Hn Hd. induction Hd as [|row d Hrow _ IH]; [cbn; lia|].
    cbn [map List.length]. change (list_sum (?x :: ?l)) with (x + list_sum l)%nat.
    lia. }
  split; [exact Hre|]. unfold column_variance. rewrite Hre.
  unfold Np.transpose. split.
  - now rewrite !length_map, length_seq.
  - intros j Hj. rewrite map_map.
    rewrite (nth_map_lt _ _ _ _ O) by (now rewrite length_seq).
    now rewrite seq_nth.
Qed.

(** Three columns, two scales. *)
Lemma X19_variance_across_columns_witness :
  Np.reshape [[1; 2]; [3; 4]; [5; 6]] 2 = [[1; 2]; [3; 4]; [5; 6]] /\
  List.length (column_variance [[1; 2]; [3; 4]; [5; 6]] 2) = 2%nat /\
  forall j : nat,
    (j < 2)%nat ->
    nth j (column_variance [[1; 2]; [3; 4]; [5; 6]] 2) 0 =
    Np.var (map (fun col => nth j col 0) [[1; 2]; [3; 4]; [5; 6]]).
Proof.
  apply (X19_variance_across_columns [[1; 2]; [3; 4]; [5; 6]] 2).
  - lia.
  - repeat constructor.
Defined.

(** ** The padded length and the wavenumbers of the smoothing *)

Lemma k2_length (n : Z) :
  (1 <= n)%Z -> Z.of_nat (List.length (k2 n)) = (n + n mod 2)%Z.
Proof.
  intros Hn. unfold k2, Np.mul_scalar.
  rewrite length_map. cbn [List.length].
  rewrite length_app, length_firstn, !length_map, length_rev, !length_map,
    range2_length.
  Z.div_mod_to_equations. lia.
Qed.

(** X20. For a column of [ny >= 1] pixels, the length [npad] of the
    transforms of the smoothing is a power of two, at least 2 and greater
    than [ny], so that no sample is cut; the vector [k2] of squared
    wavenumbers has exactly [npad] entries, the first two of which are 0. *)
Theorem X20_smoothing_length :
  forall ny : Z,
    (1 <= ny)%Z ->
    exists e : Z,
      (1 <= e)%Z /\ npad ny = (2 ^ e)%Z /\ (ny < npad ny)%Z /\
      Z.of_nat (List.length (k2 (npad ny))) = npad ny /\
      nth 0 (k2 (npad ny)) 1 = 0 /\ nth 1 (k2 (npad ny)) 1 = 0.
Proof.
  intros ny Hny. unfold npad.
  set (r := ln (IZR ny) / ln 2 + 0.0001).
  set (e := (- Int_part (- r))%Z).
  pose proof ln2_pos as Hl2.
  assert (Hny0 : 0 < IZR ny) by (apply IZR_lt; lia).
  assert (Hln : 0 <= ln (IZR ny)).
  { rewrite <- ln_1. apply ln_le; [lra|]. apply IZR_le. lia. }
  assert (Hq : 0 <= ln (IZR ny) / ln 2).
  { apply Rmult_le_pos; [exact Hln|]. left. now apply Rinv_0_lt_compat. }
  assert (Hceil : r <= IZR e).
  { unfold e. rewrite opp_IZR. destruct (base_Int_part (- r)) as [Hle _]. lra. }
  assert (He : (1 <= e)%Z).
  { assert (IZR 0 < IZR e) by (unfold r in Hceil; lra).
    apply lt_IZR in H. lia. }
  assert (Hpow : (ny < 2 ^ e)%Z).
  { apply lt_IZR. apply ln_lt_inv; [exact Hny0|apply pow2_pos; lia|].
    rewrite ln_pow2 by lia.
    assert (ln (IZR ny) / ln 2 < IZR e) by (unfold r in Hceil; lra).
    apply Rmult_lt_reg_r with (/ ln 2); [now apply Rinv_0_lt_compat|].
    replace (IZR e * ln 2 * / ln 2) with (IZR e) by (field; lra).
    exact H. }
  exists e. split; [exact He|]. split; [reflexivity|]. split; [exact Hpow|].
  assert (Heven : ((2 ^ e) mod 2 = 0)%Z).
  { replace e with (1 + (e - 1))%Z by lia.
    rewrite Z.pow_add_r by lia. change (2 ^ 1)%Z with 2%Z.
    rewrite Z.mul_comm. apply Z_mod_mult. }
  assert (Hbig : (2 <= 2 ^ e)%Z).
  { change 2%Z with (2 ^ 1)%Z at 1. apply Z.pow_le_mono_r; lia. }
  split; [|split].
  - rewrite k2_length by lia. lia.
  - unfold k2. cbn [map nth]. ring.
  - unfold k2, Np.mul_scalar.
    assert (Hhalf : (1 <= (2 ^ e + 1) / 2)%Z)
      by (apply Z.div_le_lower_bound; lia).
    rewrite range2_seq.
    replace (Z.to_nat ((2 ^ e + 1) / 2 - 0)) with (S (Z.to_nat ((2 ^ e + 1) / 2 - 1)))
      by lia.
    cbn [seq map app nth]. replace (IZR (0 + Z.of_nat 0)) with 0 by (cbn; lra).
    ring.
Qed.

(** A column of 100 pixels. *)
Lemma X20_smoothing_length_witness :
  exists e : Z,
    (1 <= e)%Z /\ npad 100 = (2 ^ e)%Z /\ (100 < npad 100)%Z /\
    Z.of_nat (List.length (k2 (npad 100))) = npad 100 /\
    nth 0 (k2 (npad 100)) 1 = 0 /\ nth 1 (k2 (npad 100)) 1 = 0.
Proof.
  apply (X20_smoothing_length 100). lia.
Defined.

(** ** The analysis of one column *)











(** ** The density that is returned *)

Lemma sum_filter_split (p : R * R -> bool) (l : list (R * R)) :
  Np.sum (map snd (filter p l)) +
  Np.sum (map snd (filter (fun q => negb (p q)) l)) =
  Np.sum (map snd l).
Proof.
  unfold Np.sum. induction l as [|q l IH]; cbn [filter map fold_right]; [lra|].
  destruct (p q); cbn [negb map fold_right]; lra.
Qed.

Lemma map_snd_combine (a b : list R) :
  List.length a = List.length b -> map snd (combine a b) = b.
Proof.
  revert b. induction a as [|x a IH]; intros [|y b] Hlen; try discriminate;
    [reflexivity|].
  cbn [combine map snd]. f_equal. apply IH. cbn in Hlen. congruence.
Qed.

(** X22. The density is not normalised again after the largest scales are
    discarded: for scales and densities of one length, the sum of the
    returned density and the sum of the discarded entries (those whose scale
    is not below [ny / 3]) make the sum of the density before. *)
Theorem X22_returned_density_sum :
  forall (scales density : list R) (ny : Z) (resolution : R),
    List.length scales = List.length density ->
    Np.sum (snd (retain scales density ny resolution)) +
    Np.sum (map snd
              (filter (fun p => negb (if Rlt_dec (fst p) (IZR (ny / 3))
                                      then true else false))
                      (combine scales density))) =
    Np.sum density.
Proof.
  intros scales density ny resolution Hlen.
  pose proof (take_nonzero_from (IZR (ny / 3)) scales density [] [] 0
                eq_refl eq_refl Hlen) as Hkeep.
  cbn [app] in Hkeep.
  assert (Hsnd : snd (retain scales density ny resolution) =
                 map snd (filter (fun p => if Rlt_dec (fst p) (IZR (ny / 3))
                                           then true else false)
                                 (combine scales density))).
  { rewrite <- Hkeep. unfold retain, Np.nonzero. cbn [snd].
    rewrite map_snd_combine; [reflexivity|].
    unfold Np.take. now rewrite !length_map. }
  rewrite Hsnd, sum_filter_split. now rewrite map_snd_combine.
Qed.

(** Two scales of a 17-pixel column, the second one discarded. *)
Lemma X22_returned_density_sum_witness :
  Np.sum (snd (retain [3; 16 / 3] [0.5; 0.5] 17 1)) +
  Np.sum (map snd
            (filter (fun p => negb (if Rlt_dec (fst p) (IZR (17 / 3))
                                    then true else false))
                    (combine [3; 16 / 3] [0.5; 0.5]))) =
  Np.sum [0.5; 0.5].
Proof.
  apply (X22_returned_density_sum [3; 16 / 3] [0.5; 0.5] 17 1). reflexivity.
Defined.

(** ** The order of the scales *)

(** X23. In "log" mode, for [N >= 1], [largestscale >= 1] and
    [notes >= 1], each scale is the preceding one times [2^(1/notes)]: the
    scales are positive, strictly increasing and double every [notes]
    steps; the last one is [N / largestscale]. *)
Theorem X23_log_scales_ordered :
  forall (N largestscale notes nscale : Z) (scales : list R),
    (1 <= N)%Z -> (1 <= largestscale)%Z -> (1 <= notes)%Z ->
    Cwt._setscales N largestscale notes "log" = inr (nscale, scales) ->
    (forall j : Z,
        (0 <= j)%Z -> (j + 1 < nscale)%Z ->
        0 < nth (Z.to_nat j) scales 0 /\
        nth (Z.to_nat (j + 1)) scales 0 =
        nth (Z.to_nat j) scales 0 * Rpower 2 (1 / IZR notes) /\
        nth (Z.to_nat j) scales 0 < nth (Z.to_nat (j + 1)) scales 0) /\
    ((1 <= nscale)%Z ->
     nth (Z.to_nat (nscale - 1)) scales 0 = IZR N / IZR largestscale).
Proof.
  intros N lsd notes nscale scales HN Hlsd Hnotes Hset.
  unfold Cwt._setscales in Hset. cbn [String.eqb Ascii.eqb Bool.eqb] in Hset.
  destruct (Z.leb_spec notes 0) as [?|_]; [lia|].
  destruct (Z.eqb_spec lsd 0) as [?|_]; [lia|].
  destruct (Cwt._log2 (N / lsd / 2)) as [e|noctave]; [discriminate|].
  cbn [Py.bind Py.ret] in Hset. injection Hset as Hns Hsc.
  set (f := fun j : Z =>
              IZR N / (IZR lsd * Rpower 2 (IZR (nscale - 1 - j) / IZR notes))).
  assert (Hnth : forall j, (0 <= j < nscale)%Z -> nth (Z.to_nat j) scales 0 = f j).
  { intros j Hj. rewrite <- Hsc, Hns. apply fill_nth; [exact Hj|].
    unfold Np.zeros. rewrite repeat_length. lia. }
  assert (HN0 : 1 <= IZR N) by (apply IZR_le; lia).
  assert (Hl0 : 1 <= IZR lsd) by (apply IZR_le; lia).
  assert (Hn0 : 1 <= IZR notes) by (apply IZR_le; lia).
  assert (Hpos : forall y, 0 < Rpower 2 y) by (intros y; apply exp_pos).
  pose proof (Rpower2_fraction notes Hnotes) as [Hr1 Hr2].
  split.
  - intros j Hj0 Hj1.
    rewrite (Hnth j) by lia. rewrite (Hnth (j + 1)%Z) by lia. unfold f.
    assert (Hexp : Rpower 2 (IZR (nscale - 1 - j) / IZR notes) =
                   Rpower 2 (IZR (nscale - 1 - (j + 1)) / IZR notes)
                   * Rpower 2 (1 / IZR notes)).
    { rewrite <- Rpower_plus. f_equal.
      rewrite !minus_IZR, plus_IZR. field. lra. }
    rewrite Hexp.
    set (p := Rpower 2 (IZR (nscale - 1 - (j + 1)) / IZR notes)).
    set (q := Rpower 2 (1 / IZR notes)) in *.
    assert (Hp : 0 < p) by apply Hpos.
    assert (Hbase : 0 < IZR N / (IZR lsd * (p * q))).
    { apply Rdiv_lt_0_compat; [lra|].
      apply Rmult_lt_0_compat; [lra|]. apply Rmult_lt_0_compat; lra. }
    assert (Hstep : IZR N / (IZR lsd * p) = IZR N / (IZR lsd * (p * q)) * q).
    { field. repeat split; lra. }
    split; [exact Hbase|]. split; [exact Hstep|].
    rewrite Hstep. nra.
  - intros Hns1. rewrite (Hnth (nscale - 1)%Z) by lia. unfold f.
    replace (nscale - 1 - (nscale - 1))%Z with 0%Z by lia.
    unfold Rdiv at 2. rewrite Rmult_0_l, Rpower_O by lra.
    now rewrite Rmult_1_r.
Qed.

(** A padded column of 32 samples with the program's parameters. *)
Lemma X23_log_scales_ordered_witness :
  exists (nscale : Z) (scales : list R),
    Cwt._setscales 32 3 8 "log" = inr (nscale, scales) /\
    (forall j : Z,
        (0 <= j)%Z -> (j + 1 < nscale)%Z ->
        0 < nth (Z.to_nat j) scales 0 /\
        nth (Z.to_nat (j + 1)) scales 0 =
        nth (Z.to_nat j) scales 0 * Rpower 2 (1 / IZR 8) /\
        nth (Z.to_nat j) scales 0 < nth (Z.to_nat (j + 1)) scales 0) /\
    ((1 <= nscale)%Z ->
     nth (Z.to_nat (nscale - 1)) scales 0 = IZR 32 / IZR 3).
Proof.
  eexists. eexists. split; [reflexivity|].
  apply (X23_log_scales_ordered 32 3 8 _ _); [lia|lia|lia|reflexivity].
Defined.

(** ** The borders of the padded image *)

Lemma slice_length {A} (l : list A) (start stop : nat) :
  List.length (slice l start stop) = (Nat.min stop (List.length l) - start)%nat.
Proof. unfold slice. now rewrite length_skipn, length_firstn. Qed.

Lemma slice_In {A} (l : list A) (start stop : nat) (x : A) :
  In x (slice l start stop) -> In x l.
Proof.
  unfold slice. intros Hin.
  assert (In x (firstn stop l)).
  { rewrite <- (firstn_skipn start (firstn stop l)). apply in_or_app. now right. }
  rewrite <- (firstn_skipn stop l). apply in_or_app. now left.
Qed.

Lemma last_In {A} (l : list A) (d : A) : l <> [] -> In (last l d) l.
Proof.
  induction l as [|a l IH]; intros Hne; [contradiction|].
  destruct l as [|b l]; [now left|].
  right. apply IH. discriminate.
Qed.

(** In the arithmetic of 8-bit pixels the reflection upwards gives the
    mirrored pixel back, and the reflection downwards gives the point
    mirrored at the border value, modulo 256. *)
Lemma u8_reflect_high (b x : Z) :
  (0 <= x < 256)%Z -> U8.add b (U8.abs (U8.sub x b)) = x.
Proof.
  intros Hx. unfold U8.add, U8.abs, U8.sub, U8.wrap.
  rewrite Zplus_mod_idemp_r.
  replace (b + (x - b))%Z with x by ring.
  now apply Z.mod_small.
Qed.

Lemma u8_reflect_low (b x : Z) :
  U8.sub b (U8.abs (U8.sub x b)) = ((2 * b - x) mod 256)%Z.
Proof.
  unfold U8.abs, U8.sub, U8.wrap.
  rewrite Zminus_mod_idemp_r. f_equal. ring.
Qed.

Lemma reflect_high_row (band : list Z) :
  forall row,
    List.length row = List.length band ->
    Forall (fun v => (0 <= v < 256)%Z) row ->
    map (fun p => U8.add (fst p) (U8.abs (U8.sub (snd p) (fst p))))
        (combine band row) = row.
Proof.
  induction band as [|b band IH]; intros [|x row] Hlen Hrow; try discriminate;
    [reflexivity|].
  inversion Hrow as [|? ? Hx Hrest]; subst.
  cbn [combine map fst snd]. rewrite u8_reflect_high by exact Hx.
  f_equal. apply IH; [cbn in Hlen; congruence|exact Hrest].
Qed.

Lemma map_fixed {A} (f : A -> A) (l : list A) :
  (forall a, In a l -> f a = a) -> map f l = l.
Proof.
  intros Hf. rewrite <- (map_id l) at 2. now apply map_ext_in.
Qed.

(** X24. For an image of 8-bit pixels with more than [half_size] rows and
    columns, each border of the padded array receives [half_size] rows (or
    columns) of pixel values.  The values below the last row and right of
    the last column are the plain mirror image of the rows and columns next
    to the border: [band + abs(x - band)] wraps around to [x].  The values
    above the first row and left of the first column are
    [2 * band - x] modulo 256, which is the point mirrored at the border
    value only where that point is a pixel value. *)
Theorem X24_border_bands :
  forall (z : list (list Z)) (half_size ncols : nat),
    (half_size < List.length z)%nat -> (half_size < ncols)%nat ->
    Forall (fun row => List.length row = ncols /\
                       Forall (fun v => (0 <= v < 256)%Z) row) z ->
    let nrows := List.length z in
    let pixels := Forall (Forall (fun v => (0 <= v < 256)%Z)) in
    (List.length (top_band z half_size) = half_size /\
     Forall (fun row => List.length row = ncols) (top_band z half_size) /\
     pixels (top_band z half_size) /\
     top_band z half_size =
     map (fun row =>
            map (fun p => ((2 * fst p - snd p) mod 256)%Z) (combine (hd [] z) row))
         (rev (slice z 1 (half_size + 1)))) /\
    (List.length (bottom_band z half_size) = half_size /\
     Forall (fun row => List.length row = ncols) (bottom_band z half_size) /\
     pixels (bottom_band z half_size) /\
     bottom_band z half_size =
     rev (slice z (nrows - (half_size + 1)) (nrows - 1))) /\
    (List.length (left_band z half_size) = nrows /\
     Forall (fun band => List.length band = half_size) (left_band z half_size) /\
     pixels (left_band z half_size) /\
     left_band z half_size =
     map (fun row =>
            map (fun x => ((2 * hd 0 row - x) mod 256)%Z)
                (rev (slice row 1 (half_size + 1))))
         z) /\
    (List.length (right_band z half_size) = nrows /\
     Forall (fun band => List.length band = half_size) (right_band z half_size) /\
     pixels (right_band z half_size) /\
     right_band z half_size =
     map (fun row => rev (slice row (ncols - (half_size + 1)) (ncols - 1))) z).
Proof.
  intros z half ncols Hrows Hcols Hrect nrows pixels.
  assert (Hin : forall row, In row z ->
                            List.length row = ncols /\
                            Forall (fun v => (0 <= v < 256)%Z) row)
    by (now apply Forall_forall).
  assert (Hhd : List.length (hd [] z) = ncols).
  { destruct z as [|r z]; [cbn in Hrows; lia|]. apply Hin. now left. }
  assert (Hlast : List.length (last z []) = ncols).
  { destruct z as [|r z]; [cbn in Hrows; lia|].
    apply Hin. apply last_In. discriminate. }
  assert (Hmod : forall v, (0 <= v mod 256 < 256)%Z)
    by (intros v; apply Z.mod_pos_bound; lia).
  assert (Htop : top_band z half =
                 map (fun row =>
                        map (fun p => ((2 * fst p - snd p) mod 256)%Z)
                            (combine (hd [] z) row))
                     (rev (slice z 1 (half + 1)))).
  { unfold top_band. apply map_ext. intros row. apply map_ext. intros [b x].
    apply u8_reflect_low. }
  assert (Hbottom : bottom_band z half =
                    rev (slice z (nrows - (half + 1)) (nrows - 1))).
  { unfold bottom_band. fold nrows. apply map_fixed. intros row Hr.
    apply in_rev in Hr. apply slice_In in Hr. destruct (Hin row Hr) as [Hl Hp].
    apply reflect_high_row; [now rewrite Hlast|exact Hp]. }
  assert (Hleft : left_band z half =
                  map (fun row =>
                         map (fun x => ((2 * hd 0 row - x) mod 256)%Z)
                             (rev (slice row 1 (half + 1))))
                      z).
  { unfold left_band. apply map_ext. intros row. apply map_ext. intros x.
    apply u8_reflect_low. }
  assert (Hright : right_band z half =
                   map (fun row => rev (slice row (ncols - (half + 1)) (ncols - 1)))
                       z).
  { unfold right_band. apply map_ext_in. intros row Hr.
    destruct (Hin row Hr) as [Hl Hp]. rewrite Hl.
    apply map_fixed. intros x Hx. apply in_rev in Hx. apply slice_In in Hx.
    apply u8_reflect_high. revert x Hx. now apply Forall_forall. }
  split; [|split; [|split]].
  - split; [|split; [|split; [|exact Htop]]].
    + unfold top_band. rewrite length_map, length_rev, slice_length. lia.
    + rewrite Htop. apply Forall_forall. intros row Hrow.
      apply in_map_iff in Hrow. destruct Hrow as [r [<- Hr]].
      apply in_rev in Hr. apply slice_In in Hr. destruct (Hin r Hr) as [Hl _].
      rewrite length_map, length_combine, Hhd, Hl. lia.
    + rewrite Htop. apply Forall_forall. intros row Hrow.
      apply in_map_iff in Hrow. destruct Hrow as [r [<- _]].
      apply Forall_forall. intros v Hv.
      apply in_map_iff in Hv. destruct Hv as [q [<- _]]. apply Hmod.
  - split; [|split; [|split; [|exact Hbottom]]].
    + unfold bottom_band. rewrite length_map, length_rev, slice_length.
      fold nrows. lia.
    + rewrite Hbottom. apply Forall_forall. intros row Hr.
      apply in_rev in Hr. apply slice_In in Hr. now apply Hin.
    + rewrite Hbottom. apply Forall_forall. intros row Hr.
      apply in_rev in Hr. apply slice_In in Hr. now apply Hin.
  - split; [|split; [|split; [|exact Hleft]]].
    + unfold left_band. now rewrite length_map.
    + rewrite Hleft. apply Forall_forall. intros band Hband.
      apply in_map_iff in Hband. destruct Hband as [row [<- Hr]].
      destruct (Hin row Hr) as [Hl _].
      rewrite length_map, length_rev, slice_length, Hl. lia.
    + rewrite Hleft. apply Forall_forall. intros band Hband.
      apply in_map_iff in Hband. destruct Hband as [row [<- _]].
      apply Forall_forall. intros v Hv.
      apply in_map_iff in Hv. destruct Hv as [x [<- _]]. apply Hmod.
  - split; [|split; [|split; [|exact Hright]]].
    + unfold right_band. now rewrite length_map.
    + rewrite Hright. apply Forall_forall. intros band Hband.
      apply in_map_iff in Hband. destruct Hband as [row [<- Hr]].
      destruct (Hin row Hr) as [Hl _].
      rewrite length_rev, slice_length, Hl. lia.
    + rewrite Hright. apply Forall_forall. intros band Hband.
      apply in_map_iff in Hband. destruct Hband as [row [<- Hr]].
      destruct (Hin row Hr) as [_ Hp].
      apply Forall_forall. intros v Hv.
      apply in_rev in Hv. apply slice_In in Hv.
      revert v Hv. now apply Forall_forall.
Qed.

(** A 3 x 3 image and a window of 3 pixels. *)
Lemma X24_border_bands_witness :
  let z := [[10; 200; 30]; [5; 100; 35]; [7; 8; 9]]%Z in
  let nrows := List.length z in
  let pixels := Forall (Forall (fun v => (0 <= v < 256)%Z)) in
  (List.length (top_band z 1) = 1%nat /\
   Forall (fun row => List.length row = 3%nat) (top_band z 1) /\
   pixels (top_band z 1) /\
   top_band z 1 =
   map (fun row =>
          map (fun p => ((2 * fst p - snd p) mod 256)%Z) (combine (hd [] z) row))
       (rev (slice z 1 (1 + 1)))) /\
  (List.length (bottom_band z 1) = 1%nat /\
   Forall (fun row => List.length row = 3%nat) (bottom_band z 1) /\
   pixels (bottom_band z 1) /\
   bottom_band z 1 = rev (slice z (nrows - (1 + 1)) (nrows - 1))) /\
  (List.length (left_band z 1) = nrows /\
   Forall (fun band => List.length band = 1%nat) (left_band z 1) /\
   pixels (left_band z 1) /\
   left_band z 1 =
   map (fun row =>
          map (fun x => ((2 * hd 0 row - x) mod 256)%Z) (rev (slice row 1 (1 + 1))))
       z) /\
  (List.length (right_band z 1) = nrows /\
   Forall (fun band => List.length band = 1%nat) (right_band z 1) /\
   pixels (right_band z 1) /\
   right_band z 1 =
   map (fun row => rev (slice row (3 - (1 + 1)) (3 - 1))) z).
Proof.
  apply (X24_border_bands [[10; 200; 30]; [5; 100; 35]; [7; 8; 9]]%Z 1 3).
  - simpl. lia.
  - lia.
  - repeat (apply Forall_cons || apply Forall_nil || split);
      try reflexivity; lia.
Defined.

(** The bands of that image: above the first row the band value 10 and the
    neighbour 5 give 15, the values 200 and 100 give 300 - 256 = 44; below
    the last row the band repeats the middle row. *)
Lemma border_bands_values :
  let z := [[10; 200; 30]; [5; 100; 35]; [7; 8; 9]]%Z in
  top_band z 1 = [[15; 44; 25]]%Z /\
  bottom_band z 1 = [[5; 100; 35]]%Z /\
  left_band z 1 = [[76]; [166]; [6]]%Z /\
  right_band z 1 = [[200]; [100]; [8]]%Z.
Proof.
  cbv zeta. repeat split; reflexivity.
Qed.
